(** * Batting ledger of the line-up page: classifier, counters, roster, totals

    Shallow embedding of the domain logic of [src/app/page.tsx] (the two
    other revisions of the page carry the same functions unchanged):
    [normalizeResult], [updateStatsForResult], [updateBattingResult],
    [addPlayer], [deletePlayer], [movePlayer], [getTeamStats] and the two
    inning buttons.

    Conventions of the embedding.
    - A JavaScript string is its sequence of UTF-16 code units
      ([jsstring]); literals are written in UTF-8 and decoded by [js].
    - [String.prototype.toLowerCase] is the host's Unicode case mapping.
      The development is parametric in it (Section variable
      [toLowerCase]); [toLowerCaseASCII] is the instance used to run the
      definitions on texts that have no cased letter outside A-Z.
    - The counters are integers far below 2^53, where the double
      arithmetic of [+=], [-] and [Math.max] is exact: they are [Z].
      The one division, in [getTeamStats], is carried out in binary64.
    - A JavaScript array is a [list (option A)]: [None] is a hole or an
      [undefined] element, reading past the end gives [None] and writing
      past the end extends the array.
    - The object used as the stats dictionary is a [gmap nat]; a key can
      be present with the value [undefined] ([Some None]).
    - An edit writes into the results array it shares with the previous
      state. The ledger is first given on values, then (module [Shared])
      with the arrays at addresses; the two agree on every state the
      handlers build, where no two players hold the same array. *)

From Stdlib Require Import ZArith NArith List String Ascii Lia.
From Stdlib Require Import Floats.SpecFloat.
From stdpp Require Import gmap list strings.

Local Open Scope Z_scope.

(** ** JavaScript strings *)

Module JsString.

Definition jsstring : Type := list N.

(** UTF-8 decoding of a literal: [pending] accumulates the scalar value,
    [need] counts the continuation bytes still expected. *)
Fixpoint utf8_decode (pending : N) (need : nat) (bs : list N) : list N :=
  match bs with
  | [] => []
  | b :: rest =>
    match need with
    | O =>
      if (b <? 128)%N then b :: utf8_decode 0%N 0%nat rest
      else if (b <? 224)%N then utf8_decode (b mod 32)%N 1%nat rest
      else if (b <? 240)%N then utf8_decode (b mod 16)%N 2%nat rest
      else utf8_decode (b mod 8)%N 3%nat rest
    | S O => (pending * 64 + b mod 64)%N :: utf8_decode 0%N 0%nat rest
    | S n => utf8_decode (pending * 64 + b mod 64)%N n rest
    end
  end.

(** A scalar value above the BMP becomes a surrogate pair. *)
Definition utf16_units (cp : N) : list N :=
  if (cp <? 65536)%N then [cp]
  else [(55296 + (cp - 65536) / 1024)%N; (56320 + (cp - 65536) mod 1024)%N].

Definition js (s : string) : jsstring :=
  concat (map utf16_units
    (utf8_decode 0%N 0%nat (map (fun a => N_of_ascii a) (list_ascii_of_string s)))).

(** WhiteSpace and LineTerminator code points, the set [trim] strips. *)
Definition isWhiteSpace (c : N) : bool :=
  ((9 <=? c) && (c <=? 13) || (c =? 32) || (c =? 160) || (c =? 5760)
   || (8192 <=? c) && (c <=? 8202) || (c =? 8232) || (c =? 8233)
   || (c =? 8239) || (c =? 8287) || (c =? 12288) || (c =? 65279))%N.

Fixpoint trimStart (s : jsstring) : jsstring :=
  match s with
  | [] => []
  | c :: rest => if isWhiteSpace c then trimStart rest else s
  end.

Definition trimEnd (s : jsstring) : jsstring := rev (trimStart (rev s)).

Definition trim (s : jsstring) : jsstring := trimEnd (trimStart s).

(** Truthiness of a string value: every string but the empty one. *)
Definition truthy (s : jsstring) : bool :=
  match s with [] => false | _ :: _ => true end.

(** Strict equality [a === b] of two strings. *)
Definition strictEq (a b : jsstring) : bool := bool_decide (a = b).

Fixpoint startsWith (p s : jsstring) : bool :=
  match p, s with
  | [], _ => true
  | _ :: _, [] => false
  | a :: p', b :: s' => (a =? b)%N && startsWith p' s'
  end.

(** [includes s p] is [s.includes(p)]: [p] occurs in [s] at some offset. *)
Fixpoint includes (s p : jsstring) : bool :=
  startsWith p s || match s with [] => false | _ :: s' => includes s' p end.

(** [Array.prototype.includes] on an array of strings. *)
Definition arrayIncludes (a : list jsstring) (x : jsstring) : bool :=
  existsb (strictEq x) a.

(** Lower-casing of the letters A-Z only. *)
Definition toLowerCaseASCII (s : jsstring) : jsstring :=
  map (fun c => if ((65 <=? c) && (c <=? 90))%N then (c + 32)%N else c) s.

End JsString.
Import JsString.

(** ** JavaScript arrays *)

Module JsArray.

Definition get {A} (a : list (option A)) (i : nat) : option A :=
  mjoin (a !! i).

Definition set {A} (a : list (option A)) (i : nat) (v : option A)
  : list (option A) :=
  if (i <? length a)%nat then <[i := v]> a
  else a ++ replicate (i - length a) None ++ [v].

End JsArray.

(** ** JavaScript numbers: the binary64 division and [toFixed] *)

Module JsNumber.

Definition prec : Z := 53.
Definition emax : Z := 1024.

(** The double nearest to an integer (exact up to 2^53). *)
Definition ofZ (z : Z) : spec_float := binary_normalize prec emax z 0 false.

(** [x / y] on doubles, round to nearest even. *)
Definition div (x y : spec_float) : spec_float := SFdiv prec emax x y.

Fixpoint uint_units (d : Decimal.uint) : jsstring :=
  match d with
  | Decimal.Nil => []
  | Decimal.D0 r => 48%N :: uint_units r
  | Decimal.D1 r => 49%N :: uint_units r
  | Decimal.D2 r => 50%N :: uint_units r
  | Decimal.D3 r => 51%N :: uint_units r
  | Decimal.D4 r => 52%N :: uint_units r
  | Decimal.D5 r => 53%N :: uint_units r
  | Decimal.D6 r => 54%N :: uint_units r
  | Decimal.D7 r => 55%N :: uint_units r
  | Decimal.D8 r => 56%N :: uint_units r
  | Decimal.D9 r => 57%N :: uint_units r
  end.

(** Decimal digits of a natural number, ["0"] for zero. *)
Definition decimal (n : N) : jsstring := uint_units (N.to_uint n).

(** The integer [n] for which [n / 10^f - m * 2^e] is closest to zero,
    the larger one when two are equally close (step 8 of
    Number.prototype.toFixed, for a positive finite [m * 2^e]). *)
Definition roundScaled (f : nat) (m : positive) (e : Z) : Z :=
  let scaled := Z.pos m * 10 ^ Z.of_nat f in
  if 0 <=? e then scaled * 2 ^ e
  else (2 * scaled + 2 ^ (- e)) / 2 ^ (- e + 1).

(** Steps 9-10: the digits of [n] with a point before the last [f] ones,
    padded with zeros on the left up to [f + 1] digits. *)
Definition fixedDigits (f : nat) (n : Z) : jsstring :=
  let m := decimal (Z.to_N n) in
  match f with
  | O => m
  | _ =>
    let m := replicate (S f - length m) 48%N ++ m in
    let k := length m in
    take (k - f) m ++ [46%N] ++ drop (k - f) m
  end.

(** [x.toFixed(f)]. From 10^21 on the standard switches to exponent
    notation; no quotient of two counters is that large, and the model
    keeps positional digits there. *)
Definition toFixed (f : nat) (x : spec_float) : jsstring :=
  match x with
  | S754_nan => js "NaN"
  | S754_infinity s => if s then js "-Infinity" else js "Infinity"
  | S754_zero _ => fixedDigits f 0
  | S754_finite s m e =>
    (if s then [45%N] else []) ++ fixedDigits f (roundScaled f m e)
  end.

End JsNumber.
Import JsNumber.

(** ** Data model (the type declarations at the top of the page) *)

Record Player := {
  name : jsstring;
  pos : jsstring;
  face : jsstring
}.

Record BattingStats := {
  hits : Z;
  atBats : Z;
  walks : Z;
  results : list (option jsstring)
}.

Record GameState := {
  inning : Z;
  isTopHalf : bool;
  currentBatterIndex : Z;
  battingStats : gmap nat (option BattingStats)
}.

(** The part of the component state the modelled handlers read and write. *)
Record AppState := {
  players : list (option Player);
  gameState : GameState;
  playerName : jsstring;
  playerPos : jsstring
}.

(** [alert(message)], the only effect of the handlers besides the state. *)
Inductive Effect := Alert (message : jsstring).

Inductive Direction := up | down.

Record TeamStats := {
  totalHits : Z;
  totalAtBats : Z;
  totalWalks : Z;
  avg : jsstring;
  obp : jsstring
}.

(** [o[k]]: [undefined] both for a missing key and for a key that holds
    [undefined]. *)
Definition objGet {A} (o : gmap nat (option A)) (k : nat) : option A :=
  mjoin (o !! k).

(** [{ ...gameState, battingStats: b }] *)
Definition withBattingStats (g : GameState) (b : gmap nat (option BattingStats))
  : GameState :=
  {| inning := inning g; isTopHalf := isTopHalf g;
     currentBatterIndex := currentBatterIndex g; battingStats := b |}.

(** [{ hits: 0, atBats: 0, walks: 0, results: [] }] *)
Definition emptyStats : BattingStats :=
  {| hits := 0; atBats := 0; walks := 0; results := [] |}.

(** ** Counter deltas *)

Definition nonAtBatResults : list jsstring :=
  [js "walk"; js "hbp"; js "sacrifice_bunt"; js "sacrifice_fly"].

Definition hitResults : list jsstring :=
  [js "hit"; js "2hit"; js "3hit"; js "homerun"].

Definition walkResults : list jsstring := [js "walk"; js "hbp"].

(** The function mutates [stats]; the embedding returns the mutated
    record. *)
Definition updateStatsForResult (stats : BattingStats) (result : jsstring)
    (multiplier : Z) : BattingStats :=
  let stats :=
    if truthy result && negb (arrayIncludes nonAtBatResults result)
    then {| hits := hits stats; atBats := atBats stats + multiplier;
            walks := walks stats; results := results stats |}
    else stats in
  let stats :=
    if arrayIncludes hitResults result
    then {| hits := hits stats + multiplier; atBats := atBats stats;
            walks := walks stats; results := results stats |}
    else stats in
  if arrayIncludes walkResults result
  then {| hits := hits stats; atBats := atBats stats;
          walks := walks stats + multiplier; results := results stats |}
  else stats.

(** ** Inning cursor (the two buttons of the game tab) *)

(** The updater of the 前へ button. *)
Definition retreat (prev : GameState) : GameState :=
  if negb (isTopHalf prev) && (inning prev >? 1) then
    {| inning := inning prev; isTopHalf := true;
       currentBatterIndex := currentBatterIndex prev;
       battingStats := battingStats prev |}
  else if isTopHalf prev && (inning prev >? 1) then
    {| inning := inning prev - 1; isTopHalf := false;
       currentBatterIndex := currentBatterIndex prev;
       battingStats := battingStats prev |}
  else prev.

(** The updater of the 次へ button. *)
Definition advance (prev : GameState) : GameState :=
  if isTopHalf prev then
    {| inning := inning prev; isTopHalf := false;
       currentBatterIndex := currentBatterIndex prev;
       battingStats := battingStats prev |}
  else
    {| inning := inning prev + 1; isTopHalf := true;
       currentBatterIndex := currentBatterIndex prev;
       battingStats := battingStats prev |}.

(** ** Roster operations *)

(** [a.filter((_, i) => keep(i))], [i] being the index of the element. *)
Fixpoint filterIndex {A} (keep : nat -> bool) (i : nat) (a : list A) : list A :=
  match a with
  | [] => []
  | x :: rest =>
    if keep i then x :: filterIndex keep (S i) rest
    else filterIndex keep (S i) rest
  end.

(** The name is empty after trim: alert and return before any setter. *)
Definition addPlayer (st : AppState) : AppState * list Effect :=
  if negb (truthy (trim (playerName st))) then
    (st, [Alert (js "選手名を入力してください")])
  else
    let newPlayers :=
      players st ++
      [Some {| name := trim (playerName st); pos := playerPos st;
               face := js "😊" |}] in
    let newBattingStats :=
      <[(length newPlayers - 1)%nat := Some emptyStats]>
        (battingStats (gameState st)) in
    ({| players := newPlayers;
        gameState := withBattingStats (gameState st) newBattingStats;
        playerName := js "";
        playerPos := playerPos st |}, []).

(** One turn of the [forEach] of [deletePlayer] for the key [oldIdx],
    whose value in the old object is [v]. *)
Definition rekeyStep {A} (index : nat) (oldIdx : nat) (v : A)
    (newBattingStats : gmap nat A) : gmap nat A :=
  if (oldIdx <? index)%nat then <[oldIdx := v]> newBattingStats
  else if (index <? oldIdx)%nat then <[(oldIdx - 1)%nat := v]> newBattingStats
  else newBattingStats.

(** [confirmed] is the answer to the [confirm] dialog. Its message reads
    [players[index].name]: when [players[index]] is [undefined] the
    handler ends in a TypeError ([None]) before anything is set. The keys
    are visited once each; the targets of two keys never coincide, so the
    visiting order does not show in the result. *)
Definition deletePlayer (confirmed : bool) (index : nat) (st : AppState)
  : option AppState :=
  match JsArray.get (players st) index with
  | None => None
  | Some _ =>
    if confirmed then
      let newPlayers :=
        filterIndex (fun i => negb (i =? index)%nat) 0%nat (players st) in
      let newBattingStats :=
        map_fold (rekeyStep index) ∅ (battingStats (gameState st)) in
      Some {| players := newPlayers;
              gameState := withBattingStats (gameState st) newBattingStats;
              playerName := playerName st;
              playerPos := playerPos st |}
    else Some st
  end.

Definition movePlayer (index : nat) (direction : Direction) (st : AppState)
  : AppState :=
  let newIndex : Z :=
    match direction with
    | up => Z.of_nat index - 1
    | down => Z.of_nat index + 1
    end in
  if (newIndex <? 0) || (newIndex >=? Z.of_nat (length (players st))) then st
  else
    let j := Z.to_nat newIndex in
    let newPlayers :=
      JsArray.set
        (JsArray.set (players st) index (JsArray.get (players st) j))
        j (JsArray.get (players st) index) in
    let newBattingStats := battingStats (gameState st) in
    let tempStats := objGet newBattingStats index in
    let newBattingStats :=
      <[index := objGet newBattingStats j]> newBattingStats in
    let newBattingStats := <[j := tempStats]> newBattingStats in
    {| players := newPlayers;
       gameState := withBattingStats (gameState st) newBattingStats;
       playerName := playerName st;
       playerPos := playerPos st |}.

(** ** Team totals *)

Definition sentinel : jsstring := js ".---".

(** [Object.values(...).forEach]: an [undefined] value makes the read of
    [stats.hits] a TypeError ([None]). On the integer counters
    [stats.hits || 0] is [stats.hits]. *)
Definition addStats (acc : option (Z * Z * Z)) (stats : option BattingStats)
  : option (Z * Z * Z) :=
  match acc, stats with
  | Some (totalHits, totalAtBats, totalWalks), Some s =>
    Some (totalHits + hits s, totalAtBats + atBats s, totalWalks + walks s)
  | _, _ => None
  end.

Definition getTeamStats (gameState : GameState) : option TeamStats :=
  match foldl addStats (Some (0, 0, 0))
          (map snd (map_to_list (battingStats gameState))) with
  | None => None
  | Some (totalHits, totalAtBats, totalWalks) =>
    let avg :=
      if totalAtBats >? 0
      then toFixed 3 (div (ofZ totalHits) (ofZ totalAtBats))
      else sentinel in
    let obp :=
      if totalAtBats + totalWalks >? 0
      then toFixed 3 (div (ofZ (totalHits + totalWalks))
                          (ofZ (totalAtBats + totalWalks)))
      else sentinel in
    Some {| totalHits := totalHits; totalAtBats := totalAtBats;
            totalWalks := totalWalks; avg := avg; obp := obp |}
  end.

(** ** Classifier and ledger, for any lower-casing function *)

Section Ledger.

Variable toLowerCase : jsstring -> jsstring.

Definition normalizeResult (text : jsstring) : jsstring :=
  if negb (truthy (trim text)) then js ""
  else
    let t := trim (toLowerCase text) in
    if includes t (js "安") || includes t (js "ヒット") || strictEq t (js "h")
    then js "hit"
    else if includes t (js "二塁打") || strictEq t (js "2b") then js "2hit"
    else if includes t (js "三塁打") || strictEq t (js "3b") then js "3hit"
    else if includes t (js "本塁打") || includes t (js "ホームラン")
            || strictEq t (js "hr")
    then js "homerun"
    else if includes t (js "三振") || strictEq t (js "k") then js "strikeout"
    else if includes t (js "四球") || strictEq t (js "bb") then js "walk"
    else if includes t (js "死球") || strictEq t (js "hbp") then js "hbp"
    else if includes t (js "犠飛") || strictEq t (js "sf")
    then js "sacrifice_fly"
    else if includes t (js "犠打") || strictEq t (js "sh")
    then js "sacrifice_bunt"
    else if includes t (js "ゴロ") then js "grounder"
    else if includes t (js "フライ") || includes t (js "飛") then js "fly"
    else if includes t (js "エラー") || includes t (js "失") then js "error"
    else js "custom".

(** The body of [updateBattingResult] on the copied stats object: undo
    the old result of the slot, store the new one, apply it, clamp. *)
Definition applyResult (stats : BattingStats) (atBatIndex : nat)
    (result : jsstring) : BattingStats :=
  let oldResult := JsArray.get (results stats) atBatIndex in
  let stats :=
    match oldResult with
    | Some old =>
      if truthy old
      then updateStatsForResult stats (normalizeResult old) (-1)
      else stats
    | None => stats
    end in
  let stats :=
    {| hits := hits stats; atBats := atBats stats; walks := walks stats;
       results := JsArray.set (results stats) atBatIndex (Some result) |} in
  let stats :=
    if truthy (trim result)
    then updateStatsForResult stats (normalizeResult result) 1
    else stats in
  {| hits := Z.max 0 (hits stats); atBats := Z.max 0 (atBats stats);
     walks := Z.max 0 (walks stats); results := results stats |}.

Definition updateBattingResult (playerIndex atBatIndex : nat)
    (result : jsstring) (gameState : GameState) : GameState :=
  let newBattingStats := battingStats gameState in
  let newBattingStats :=
    match objGet newBattingStats playerIndex with
    | None => <[playerIndex := Some emptyStats]> newBattingStats
    | Some _ => newBattingStats
    end in
  let stats := default emptyStats (objGet newBattingStats playerIndex) in
  let stats := applyResult stats atBatIndex result in
  withBattingStats gameState (<[playerIndex := Some stats]> newBattingStats).

(** *** Reference notions the statements below compare the code with *)

(** The four leading tests of the classifier, as the taxonomy names them. *)
Definition hitToken (t : jsstring) : bool :=
  includes t (js "安") || includes t (js "ヒット") || strictEq t (js "h").

Definition doubleToken (t : jsstring) : bool :=
  includes t (js "二塁打") || strictEq t (js "2b").

Definition tripleToken (t : jsstring) : bool :=
  includes t (js "三塁打") || strictEq t (js "3b").

Definition homerunToken (t : jsstring) : bool :=
  includes t (js "本塁打") || includes t (js "ホームラン") || strictEq t (js "hr").

(** Classification of a stored slot; a hole classifies as empty. *)
Definition classOf (r : option jsstring) : jsstring :=
  match r with
  | Some text => normalizeResult text
  | None => js ""
  end.

Definition countsAsHit (r : option jsstring) : bool :=
  arrayIncludes hitResults (classOf r).

(** Non-empty (not classified empty) and outside the four outcomes that
    are no at-bat. *)
Definition countsAsAtBat (r : option jsstring) : bool :=
  truthy (classOf r) && negb (arrayIncludes nonAtBatResults (classOf r)).

Definition countsAsWalk (r : option jsstring) : bool :=
  arrayIncludes walkResults (classOf r).

Definition countIf (P : option jsstring -> bool) (rs : list (option jsstring)) : Z :=
  Z.of_nat (length (List.filter P rs)).

(** The counters are the projection of the stored results. *)
Definition consistent (stats : BattingStats) : Prop :=
  hits stats = countIf countsAsHit (results stats) /\
  atBats stats = countIf countsAsAtBat (results stats) /\
  walks stats = countIf countsAsWalk (results stats).

(** The stats object of a roster index; a missing entry reads as the
    all-zero one. *)
Definition statsAt (g : GameState) (playerIndex : nat) : BattingStats :=
  default emptyStats (objGet (battingStats g) playerIndex).

(** A sequence of edits, each [(playerIndex, atBatIndex, result)], played
    from left to right. *)
Definition runEdits (edits : list (nat * nat * jsstring)) (g : GameState)
  : GameState :=
  foldl (fun g e => updateBattingResult e.1.1 e.1.2 e.2 g) g edits.

End Ledger.

(** ** The same ledger with the results arrays in a store

    [{ ...newBattingStats[playerIndex] }] copies the counters but not the
    results array: the copy and the entry of the previous state hold the
    same array, and [stats.results[atBatIndex] = result] writes into it.
    Here a stats object holds the address of its array, so that a write
    shows through every object that holds the address. *)

Module Shared.

Record StatsObj := {
  hitsOf : Z;
  atBatsOf : Z;
  walksOf : Z;
  resultsAt : nat
}.

Record Heap := {
  arrays : gmap nat (list (option jsstring));
  entries : gmap nat (option StatsObj)
}.

(** What reading the fields of a stats object gives. *)
Definition deref (arrs : gmap nat (list (option jsstring))) (o : StatsObj)
  : BattingStats :=
  {| hits := hitsOf o; atBats := atBatsOf o; walks := walksOf o;
     results := default [] (arrs !! resultsAt o) |}.

(** The dictionary as the value-level functions see it. *)
Definition view (h : Heap) : gmap nat (option BattingStats) :=
  fmap (M := gmap nat) (fmap (M := option) (deref (arrays h))) (entries h).

(** [{ hits: 0, atBats: 0, walks: 0, results: [] }] at key [k]: the
    array literal is a new array. *)
Definition allocEntry (k : nat) (arrs : gmap nat (list (option jsstring)))
    (ents : gmap nat (option StatsObj)) : Heap :=
  let l := fresh (dom arrs) in
  {| arrays := <[l := []]> arrs;
     entries := <[k := Some {| hitsOf := 0; atBatsOf := 0; walksOf := 0;
                               resultsAt := l |}]> ents |}.

Section Store.

Variable toLowerCase : jsstring -> jsstring.

(** [updateBattingResult] on the store. *)
Definition update (playerIndex atBatIndex : nat)
    (result : jsstring) (h : Heap) : Heap :=
  let h1 :=
    match objGet (entries h) playerIndex with
    | None => allocEntry playerIndex (arrays h) (entries h)
    | Some _ => h
    end in
  match objGet (entries h1) playerIndex with
  | None => h1
  | Some o =>
    let stats :=
      applyResult toLowerCase (deref (arrays h1) o) atBatIndex result in
    {| arrays := <[resultsAt o := results stats]> (arrays h1);
       entries :=
         <[playerIndex :=
             Some {| hitsOf := hits stats; atBatsOf := atBats stats;
                     walksOf := walks stats; resultsAt := resultsAt o |}]>
           (entries h1) |}
  end.

End Store.

(** The dictionary part of [addPlayer], [movePlayer] and [deletePlayer]:
    the last two move the stats objects and leave the arrays alone. *)
Definition add (newIndex : nat) (h : Heap) : Heap :=
  allocEntry newIndex (arrays h) (entries h).

Definition move (index j : nat) (h : Heap) : Heap :=
  {| arrays := arrays h;
     entries := <[j := objGet (entries h) index]>
                  (<[index := objGet (entries h) j]> (entries h)) |}.

Definition delete (index : nat) (h : Heap) : Heap :=
  {| arrays := arrays h;
     entries := map_fold (rekeyStep index) ∅ (entries h) |}.

(** No two keys hold the same array, and every array held exists. *)
Definition separated (h : Heap) : Prop :=
  (forall k o, objGet (entries h) k = Some o ->
     is_Some (arrays h !! resultsAt o)) /\
  (forall k1 k2 o1 o2,
     objGet (entries h) k1 = Some o1 -> objGet (entries h) k2 = Some o2 ->
     resultsAt o1 = resultsAt o2 -> k1 = k2).

(** The states the four operations build from the empty dictionary. *)
Inductive reachable (toLowerCase : jsstring -> jsstring) : Heap -> Prop :=
| reach_empty : reachable toLowerCase {| arrays := ∅; entries := ∅ |}
| reach_update h playerIndex atBatIndex result :
    reachable toLowerCase h ->
    reachable toLowerCase (update toLowerCase playerIndex atBatIndex result h)
| reach_add h newIndex :
    reachable toLowerCase h -> reachable toLowerCase (add newIndex h)
| reach_move h index j :
    reachable toLowerCase h -> reachable toLowerCase (move index j h)
| reach_delete h index :
    reachable toLowerCase h -> reachable toLowerCase (delete index h).

(** Two keys on one array, which no handler ever builds. *)
Definition aliased : Heap :=
  {| arrays := {[ 0%nat := [] ]};
     entries :=
       <[0%nat := Some {| hitsOf := 0; atBatsOf := 0; walksOf := 0;
                          resultsAt := 0 |}]>
       (<[1%nat := Some {| hitsOf := 0; atBatsOf := 0; walksOf := 0;
                           resultsAt := 0 |}]> ∅) |}.

End Shared.

(** The sum of a counter over the entries of the dictionary. *)
Definition total (f : BattingStats -> Z) (b : gmap nat (option BattingStats)) : Z :=
  foldr Z.add 0 (map (fun kv => from_option f 0 kv.2) (map_to_list b)).

(** [num / den] to three decimals, or the sentinel when [den] is zero. *)
Definition rate (num den : Z) : jsstring :=
  if den =? 0 then sentinel else toFixed 3 (div (ofZ num) (ofZ den)).

(** [num / den] rounded to the nearest thousandth in exact arithmetic,
    half a thousandth going up: what three decimals of the true quotient
    would show. *)
Definition exactRate (num den : Z) : jsstring :=
  fixedDigits 3 ((2000 * num + den) / (2 * den)).


(** A stats object with counters that are not negative; [undefined] is
    not one. *)
Definition wellFormedEntry (v : option BattingStats) : Prop :=
  match v with
  | Some s => 0 <= hits s /\ 0 <= atBats s /\ 0 <= walks s
  | None => False
  end.

(** Every key holds a stats object with counters that are not negative. *)
Definition wellFormed (b : gmap nat (option BattingStats)) : Prop :=
  map_Forall (fun _ v => wellFormedEntry v) b.

#[global] Instance wellFormedEntry_dec v : Decision (wellFormedEntry v).
Proof. destruct v; apply _. Defined.

#[global] Instance wellFormed_dec b : Decision (wellFormed b).
Proof. unfold wellFormed. apply _. Defined.

(** *** Sample states *)

(** The initial value of the [gameState] hook. *)
Definition initialGameState : GameState :=
  {| inning := 1; isTopHalf := true; currentBatterIndex := 0;
     battingStats := ∅ |}.

Definition firstInningBottom : GameState :=
  {| inning := 1; isTopHalf := false; currentBatterIndex := 0;
     battingStats := ∅ |}.

Definition thirdInningBottom : GameState :=
  {| inning := 3; isTopHalf := false; currentBatterIndex := 0;
     battingStats := ∅ |}.

Definition sampleEdits : list (nat * nat * jsstring) :=
  [(0, 0, js "三振"); (0, 1, js "左安"); (1, 2, js "中飛");
   (0, 0, js "四球"); (0, 3, js " "); (0, 1, js "")]%nat.

Definition samplePlayer (n p : string) : option Player :=
  Some {| name := js n; pos := js p; face := js "😊" |}.

(** Three players; the first has a strikeout and a single, the second a
    walk in his second at-bat, the third a double. *)
Definition sampleStats : gmap nat (option BattingStats) :=
  <[0%nat := Some {| hits := 1; atBats := 2; walks := 0;
                     results := [Some (js "三振"); Some (js "左安")] |}]>
  (<[1%nat := Some {| hits := 0; atBats := 0; walks := 1;
                      results := [None; Some (js "四球")] |}]>
  (<[2%nat := Some {| hits := 1; atBats := 1; walks := 0;
                      results := [Some (js "二塁打")] |}]> ∅)).

Definition sampleState : AppState :=
  {| players := [samplePlayer "山田" "投"; samplePlayer "鈴木" "捕";
                 samplePlayer "佐藤" "一"];
     gameState := withBattingStats initialGameState sampleStats;
     playerName := js "  ";
     playerPos := js "投" |}.

(** [1] for a result that counts, [0] for one that does not. *)
Definition b2z (b : bool) : Z := if b then 1 else 0.

(** The closed set of tags the classifier returns. *)
Definition taxonomy : list jsstring :=
  [js ""; js "hit"; js "2hit"; js "3hit"; js "homerun"; js "strikeout";
   js "walk"; js "hbp"; js "sacrifice_fly"; js "sacrifice_bunt";
   js "grounder"; js "fly"; js "error"; js "custom"].

(** ** Further handlers of the page *)

(** [resetGame]: a zero stats object for every position of the list of
    players, and the cursor back at the top of inning 1. *)
Definition resetGame (confirmed : bool) (st : AppState) : AppState :=
  if confirmed then
    let newBattingStats :=
      foldl (fun acc index => <[index := Some emptyStats]> acc) ∅
            (seq 0 (length (players st))) in
    {| players := players st;
       gameState := {| inning := 1; isTopHalf := true;
                       currentBatterIndex := 0;
                       battingStats := newBattingStats |};
       playerName := playerName st;
       playerPos := playerPos st |}
  else st.

(** [clearAll], on the part of the state modelled here. *)
Definition clearAll (confirmed : bool) (st : AppState) : AppState :=
  if confirmed then
    {| players := [];
       gameState := {| inning := 1; isTopHalf := true;
                       currentBatterIndex := 0; battingStats := ∅ |};
       playerName := playerName st;
       playerPos := playerPos st |}
  else st.

(** [changePosition]: [newPlayers[index].pos = newPos] is a TypeError
    ([None]) when there is no player at [index]. *)
Definition changePosition (index : nat) (newPos : jsstring) (st : AppState)
  : option AppState :=
  match JsArray.get (players st) index with
  | None => None
  | Some p =>
    Some {| players :=
              <[index := Some {| name := name p; pos := newPos;
                                 face := face p |}]> (players st);
            gameState := gameState st;
            playerName := playerName st;
            playerPos := playerPos st |}
  end.

(** The contribution of one key of the dictionary to a sum: nothing for
    a missing key and for [undefined]. *)
Definition entryVal (f : BattingStats -> Z) (e : option (option BattingStats))
  : Z :=
  from_option (from_option f 0) 0 e.

(** ** The page as a state machine

    What the controls of the two tabs can do to the state: each row of
    the line-up carries its index, and each player of the game tab has
    the four inputs of at-bats 1 to 4. *)

(** The initial values of the hooks. *)
Definition emptyApp : AppState :=
  {| players := [];
     gameState := {| inning := 1; isTopHalf := true;
                     currentBatterIndex := 0; battingStats := ∅ |};
     playerName := js "";
     playerPos := js "投" |}.

Inductive Action :=
| TypeName (text : jsstring)
| ChoosePosition (p : jsstring)
| ClickAdd
| ClickDelete (confirmed : bool) (index : nat)
| ClickMove (index : nat) (direction : Direction)
| SelectPosition (index : nat) (newPos : jsstring)
| TypeResult (playerIndex atBatIndex : nat) (text : jsstring)
| ClickReset (confirmed : bool)
| ClickClearAll (confirmed : bool)
| ClickPrevious
| ClickNext.

(** The controls on screen: one set per rendered row. *)
Definition offered (a : Action) (st : AppState) : Prop :=
  match a with
  | ClickDelete _ index | ClickMove index _ | SelectPosition index _ =>
    (index < length (players st))%nat
  | TypeResult playerIndex atBatIndex _ =>
    (playerIndex < length (players st))%nat /\ (atBatIndex < 4)%nat
  | _ => True
  end.

Definition withGameState (st : AppState) (g : GameState) : AppState :=
  {| players := players st; gameState := g;
     playerName := playerName st; playerPos := playerPos st |}.

Section Ui.

Variable toLowerCase : jsstring -> jsstring.

(** A handler that throws sets nothing: the state stays. *)
Definition perform (a : Action) (st : AppState) : AppState :=
  match a with
  | TypeName text =>
    {| players := players st; gameState := gameState st;
       playerName := text; playerPos := playerPos st |}
  | ChoosePosition p =>
    {| players := players st; gameState := gameState st;
       playerName := playerName st; playerPos := p |}
  | ClickAdd => (addPlayer st).1
  | ClickDelete confirmed index => default st (deletePlayer confirmed index st)
  | ClickMove index direction => movePlayer index direction st
  | SelectPosition index newPos => default st (changePosition index newPos st)
  | TypeResult playerIndex atBatIndex text =>
    withGameState st
      (updateBattingResult toLowerCase playerIndex atBatIndex text
         (gameState st))
  | ClickReset confirmed => resetGame confirmed st
  | ClickClearAll confirmed => clearAll confirmed st
  | ClickPrevious => withGameState st (retreat (gameState st))
  | ClickNext => withGameState st (advance (gameState st))
  end.

(** The states reached from [start] through the controls. (Loading
    the stored record is not one of them: it replaces the state, and
    the record it loads is then the [start].) *)
Inductive uiReachable (start : AppState) : AppState -> Prop :=
| ui_initial : uiReachable start start
| ui_step st a :
    uiReachable start st -> offered a st ->
    uiReachable start (perform a st).

(** The dictionary is in step with the list: every position of the list
    holds a player and has a stats entry whose counters match its at most
    four results, no other key exists, and the inning is at least 1. *)
Definition aligned (st : AppState) : Prop :=
  Forall is_Some (players st) /\
  (forall k, (k < length (players st))%nat ->
     exists s, battingStats (gameState st) !! k = Some (Some s) /\
               consistent toLowerCase s /\ (length (results s) <= 4)%nat) /\
  (forall k, (length (players st) <= k)%nat ->
     battingStats (gameState st) !! k = None) /\
  1 <= inning (gameState st).

End Ui.

(** ** Selecting two rows to swap them (the revision with row selection)

    [selectedPlayer] is the row clicked first, if any. [deletePlayer] of
    that revision is the function above: it leaves [selectedPlayer] as it
    is. *)
Definition handlePlayerSelect (index : nat) (selectedPlayer : option nat)
    (st : AppState) : option nat * AppState :=
  match selectedPlayer with
  | None => (Some index, st)
  | Some selected =>
    if (selected =? index)%nat then (None, st)
    else
      let newPlayers :=
        JsArray.set
          (JsArray.set (players st) selected (JsArray.get (players st) index))
          index (JsArray.get (players st) selected) in
      let newBattingStats := battingStats (gameState st) in
      let tempStats := objGet newBattingStats selected in
      let newBattingStats :=
        <[selected := objGet newBattingStats index]> newBattingStats in
      let newBattingStats := <[index := tempStats]> newBattingStats in
      (None,
       {| players := newPlayers;
          gameState := withBattingStats (gameState st) newBattingStats;
          playerName := playerName st;
          playerPos := playerPos st |})
  end.

(** ** The change notification and the save (the revisions with
    real-time sync) *)

Record BenchPlayer := { benchName : jsstring; benchFace : jsstring }.

Record Manager := { managerName : jsstring; managerFace : jsstring }.

(** The [data] column as it arrives: any field can be missing. *)
Record OrderData := {
  dataPlayers : option (list (option Player));
  dataBenchPitchers : option (list (option BenchPlayer));
  dataBenchCatchers : option (list (option BenchPlayer));
  dataManagers : option (list (option Manager));
  dataGameState : option GameState
}.

(** The hooks and refs the two functions read and write. *)
Record ClientState := {
  clientPlayers : list (option Player);
  benchPitchers : list (option BenchPlayer);
  benchCatchers : list (option BenchPlayer);
  managers : list (option Manager);
  clientGameState : GameState;
  lastSaveTime : Z;
  dataId : option jsstring
}.

Inductive ClientEffect :=
| ConsoleLog (message : jsstring)
| ConsoleError (message : jsstring)
| ShowToast (message : jsstring)
| UpdateRow (id : jsstring) (data : OrderData) (updatedAt : jsstring).

(** The callback of the [postgres_changes] subscription. [now] is
    [Date.now()]; [payloadNew] is [payload.new], with its [data] field,
    when present. *)
Definition onRemoteChange (now : Z) (payloadNew : option (option OrderData))
    (c : ClientState) : ClientState * list ClientEffect :=
  if now - lastSaveTime c <? 2000 then (c, [])
  else
    match payloadNew with
    | Some (Some d) =>
      ({| clientPlayers := default [] (dataPlayers d);
          benchPitchers := default [] (dataBenchPitchers d);
          benchCatchers := default [] (dataBenchCatchers d);
          managers := default [] (dataManagers d);
          clientGameState :=
            default {| inning := 1; isTopHalf := true;
                       currentBatterIndex := 0; battingStats := ∅ |}
                    (dataGameState d);
          lastSaveTime := lastSaveTime c;
          dataId := dataId c |},
       [ConsoleLog (js "リアルタイム更新を受信:");
        ShowToast (js "🔄 データが更新されました")])
    | _ => (c, [ConsoleLog (js "リアルタイム更新を受信:")])
    end.

(** [saveData]: [now] is [Date.now()], [updatedAt] the ISO text of
    [new Date()], [failed] whether the update came back with an error.
    [!dataId] holds for [null] and for the empty string. *)
Definition saveData (showMessage : bool) (now : Z) (updatedAt : jsstring)
    (failed : bool) (c : ClientState) : ClientState * list ClientEffect :=
  match dataId c with
  | None => (c, [])
  | Some id =>
    if negb (truthy id) then (c, []) else
    ({| clientPlayers := clientPlayers c; benchPitchers := benchPitchers c;
        benchCatchers := benchCatchers c; managers := managers c;
        clientGameState := clientGameState c;
        lastSaveTime := now; dataId := dataId c |},
     UpdateRow id
       {| dataPlayers := Some (clientPlayers c);
          dataBenchPitchers := Some (benchPitchers c);
          dataBenchCatchers := Some (benchCatchers c);
          dataManagers := Some (managers c);
          dataGameState := Some (clientGameState c) |} updatedAt
     :: (if failed then
           ConsoleError (js "保存エラー:")
           :: (if showMessage then [ShowToast (js "❌ 保存失敗")] else [])
         else if showMessage then [ShowToast (js "💾 保存しました")] else []))
  end.

(** The five data fields of a client. *)
Definition clientData (c : ClientState) : OrderData :=
  {| dataPlayers := Some (clientPlayers c);
     dataBenchPitchers := Some (benchPitchers c);
     dataBenchCatchers := Some (benchCatchers c);
     dataManagers := Some (managers c);
     dataGameState := Some (clientGameState c) |}.

(** *** More sample states *)

(** The sample line-up with a name typed into the input. *)
Definition sampleStateNamed : AppState :=
  {| players := players sampleState;
     gameState := gameState sampleState;
     playerName := js " 田中 ";
     playerPos := js "左" |}.

(** A stored record with two players and a stats entry for the first
    one only. *)
Definition sparseState : AppState :=
  {| players := [samplePlayer "山田" "投"; samplePlayer "鈴木" "捕"];
     gameState :=
       withBattingStats initialGameState
         (<[0%nat := Some {| hits := 1; atBats := 1; walks := 0;
                             results := [Some (js "左安")] |}]> ∅);
     playerName := js "";
     playerPos := js "投" |}.

(** The empty page after a name is typed, the player added, and a hit
    entered in the second at-bat. *)
Definition afterThreeActions : AppState :=
  perform toLowerCaseASCII (TypeResult 0 1 (js "左安"))
    (perform toLowerCaseASCII ClickAdd
       (perform toLowerCaseASCII (TypeName (js "山田")) emptyApp)).

Definition sampleClient : ClientState :=
  {| clientPlayers := players sampleState;
     benchPitchers := [Some {| benchName := js "高橋"; benchFace := js "😊" |}];
     benchCatchers := [];
     managers := [];
     clientGameState := gameState sampleState;
     lastSaveTime := 0;
     dataId := Some (js "row-1") |}.


(** A notification with the players only. *)
Definition sampleData : OrderData :=
  {| dataPlayers := Some [samplePlayer "伊藤" "遊"];
     dataBenchPitchers := None;
     dataBenchCatchers := None;
     dataManagers := None;
     dataGameState := None |}.

(** A store with two players added. *)
Definition twoPlayerStore : Shared.Heap :=
  Shared.add 1 (Shared.add 0 {| Shared.arrays := ∅; Shared.entries := ∅ |}).

(** * Properties *)

(** ** Arrays: reading back what was written *)

Lemma array_get_set_eq {A} (a : list (option A)) i v :
  JsArray.get (JsArray.set a i v) i = v.
Proof.
  unfold JsArray.get, JsArray.set.
  destruct (Nat.ltb_spec i (length a)) as [Hlt | Hge].
  - by rewrite list_lookup_insert_eq.
  - rewrite lookup_app_r by lia.
    rewrite lookup_app_r by (rewrite length_replicate; lia).
    rewrite length_replicate, Nat.sub_diag. done.
Qed.

Lemma array_get_set_ne {A} (a : list (option A)) i j v :
  i <> j -> JsArray.get (JsArray.set a i v) j = JsArray.get a j.
Proof.
  intros Hne. unfold JsArray.get, JsArray.set.
  destruct (Nat.ltb_spec i (length a)) as [Hlt | Hge].
  - by rewrite list_lookup_insert_ne.
  - destruct (decide (j < length a)%nat) as [Hj | Hj].
    + by rewrite lookup_app_l.
    + rewrite (lookup_ge_None_2 a j) by lia.
      rewrite lookup_app_r by lia.
      destruct (decide (j - length a < i - length a)%nat) as [Hk | Hk].
      * rewrite lookup_app_l by (rewrite length_replicate; lia).
        rewrite lookup_replicate_2 by lia. done.
      * rewrite lookup_app_r by (rewrite length_replicate; lia).
        rewrite length_replicate.
        rewrite lookup_ge_None_2; [done | simpl; lia].
Qed.

Lemma array_set_set {A} (a : list (option A)) i v :
  JsArray.set (JsArray.set a i v) i v = JsArray.set a i v.
Proof.
  unfold JsArray.set at 2 3.
  destruct (Nat.ltb_spec i (length a)) as [Hlt | Hge].
  - unfold JsArray.set. rewrite length_insert.
    destruct (Nat.ltb_spec i (length a)); [|lia].
    by rewrite list_insert_insert_eq.
  - unfold JsArray.set.
    rewrite !length_app, length_replicate. simpl.
    destruct (Nat.ltb_spec i (length a + (i - length a + 1))); [|lia].
    rewrite insert_app_r_alt by lia.
    rewrite insert_app_r_alt by (rewrite length_replicate; lia).
    rewrite length_replicate, Nat.sub_diag. done.
Qed.

Lemma objGet_insert_eq {A} (o : gmap nat (option A)) k v :
  objGet (<[k := v]> o) k = v.
Proof. unfold objGet. by rewrite lookup_insert_eq. Qed.

Lemma objGet_insert_ne {A} (o : gmap nat (option A)) k k' v :
  k <> k' -> objGet (<[k := v]> o) k' = objGet o k'.
Proof. intros. unfold objGet. by rewrite lookup_insert_ne. Qed.

(** ** Strings: trimming *)

Lemma trim_nonempty_source s : truthy (trim s) = true -> truthy s = true.
Proof. destruct s; [discriminate | done]. Qed.

Lemma truthy_true_iff s : truthy s = true <-> s <> [].
Proof. destruct s; cbn [truthy]; split; congruence. Qed.

Lemma truthy_false_nil s : truthy s = false -> s = [].
Proof. by destruct s. Qed.

Lemma arrayIncludes_In a x : arrayIncludes a x = true <-> In x a.
Proof.
  unfold arrayIncludes. rewrite existsb_exists. split.
  - intros (y & Hy & E). apply bool_decide_eq_true in E. by subst y.
  - intros Hx. exists x. split; [done|]. by apply bool_decide_eq_true.
Qed.

(** ** Counting over a results array *)

Lemma countIf_cons P r rs : countIf P (r :: rs) = b2z (P r) + countIf P rs.
Proof. unfold countIf. simpl. destruct (P r); simpl; lia. Qed.

Lemma countIf_app P rs1 rs2 :
  countIf P (rs1 ++ rs2) = countIf P rs1 + countIf P rs2.
Proof.
  induction rs1 as [|r rs1 IH]; [done|].
  simpl. rewrite !countIf_cons, IH. lia.
Qed.

Lemma countIf_holes P n : P None = false -> countIf P (replicate n None) = 0.
Proof.
  intros HP. induction n as [|n IH]; [done|].
  simpl. rewrite countIf_cons, HP, IH. done.
Qed.

Lemma countIf_nonneg P rs : 0 <= countIf P rs.
Proof. unfold countIf. lia. Qed.

Lemma countIf_insert P rs i old v :
  rs !! i = Some old ->
  countIf P (<[i := v]> rs) = countIf P rs - b2z (P old) + b2z (P v).
Proof.
  revert i. induction rs as [|r rs IH]; intros [|i] Hi; simplify_eq/=.
  - rewrite !countIf_cons. lia.
  - rewrite !countIf_cons, (IH i) by done. lia.
Qed.

(** Writing a slot changes a count by what the old content of the slot
    contributed and what the new content contributes. *)
Lemma countIf_set P rs i v :
  P None = false ->
  countIf P (JsArray.set rs i v)
  = countIf P rs - b2z (P (JsArray.get rs i)) + b2z (P v).
Proof.
  intros HP. unfold JsArray.set, JsArray.get.
  destruct (Nat.ltb_spec i (length rs)) as [Hlt | Hge].
  - destruct (lookup_lt_is_Some_2 rs i Hlt) as [old Hold].
    rewrite (countIf_insert P rs i old v Hold), Hold. done.
  - rewrite (lookup_ge_None_2 rs i) by lia. simpl.
    rewrite !countIf_app, countIf_holes, HP by done.
    rewrite countIf_cons. change (countIf P []) with 0. change (b2z false) with 0. lia.
Qed.

(** ** Counter deltas of one classified outcome *)

Lemma updateStatsForResult_spec stats result multiplier :
  updateStatsForResult stats result multiplier =
  {| hits := hits stats + multiplier * b2z (arrayIncludes hitResults result);
     atBats := atBats stats + multiplier *
       b2z (truthy result && negb (arrayIncludes nonAtBatResults result));
     walks := walks stats + multiplier * b2z (arrayIncludes walkResults result);
     results := results stats |}.
Proof.
  unfold updateStatsForResult.
  destruct stats as [h a w rs].
  destruct (truthy result && negb (arrayIncludes nonAtBatResults result));
    destruct (arrayIncludes hitResults result);
    destruct (arrayIncludes walkResults result);
    cbn [hits atBats walks results b2z]; f_equal; lia.
Qed.

Lemma updateStatsForResult_empty stats multiplier :
  updateStatsForResult stats (js "") multiplier = stats.
Proof. by destruct stats. Qed.

Section LedgerFacts.

Variable toLowerCase : jsstring -> jsstring.

(** *** The classifier *)

Lemma normalizeResult_blank text :
  truthy (trim text) = false -> normalizeResult toLowerCase text = js "".
Proof. intros H. unfold normalizeResult. by rewrite H. Qed.

(** The first four tests, in the order of the source. *)
Lemma normalizeResult_leading text :
  truthy (trim text) = true ->
  let t := trim (toLowerCase text) in
  normalizeResult toLowerCase text =
    if hitToken t then js "hit"
    else if doubleToken t then js "2hit"
    else if tripleToken t then js "3hit"
    else if homerunToken t then js "homerun"
    else normalizeResult toLowerCase text.
Proof.
  intros H t. unfold normalizeResult. rewrite H. cbn [negb].
  fold t. fold (hitToken t) (doubleToken t) (tripleToken t) (homerunToken t).
  destruct (hitToken t); [done|].
  destruct (doubleToken t); [done|].
  destruct (tripleToken t); [done|].
  destruct (homerunToken t); done.
Qed.

Lemma normalizeResult_taxonomy text :
  In (normalizeResult toLowerCase text) taxonomy.
Proof.
  unfold normalizeResult, taxonomy.
  repeat match goal with
         | |- context [if ?b then _ else _] => destruct b
         end; simpl; tauto.
Qed.

Lemma normalizeResult_truthy text :
  truthy (trim text) = true -> truthy (normalizeResult toLowerCase text) = true.
Proof.
  intros H. unfold normalizeResult. rewrite H. cbn [negb].
  repeat match goal with
         | |- context [if ?b then _ else _] => destruct b
         end; reflexivity.
Qed.

Lemma normalizeResult_empty_iff text :
  normalizeResult toLowerCase text = js "" <-> trim text = [].
Proof.
  split.
  - intros Hn. destruct (truthy (trim text)) eqn:Ht.
    + apply normalizeResult_truthy in Ht. rewrite Hn in Ht. discriminate.
    + by apply truthy_false_nil.
  - intros Ht. apply normalizeResult_blank. by rewrite Ht.
Qed.

(** *** One edit of one slot *)

Lemma classOf_hole :
  countsAsHit toLowerCase None = false /\
  countsAsAtBat toLowerCase None = false /\
  countsAsWalk toLowerCase None = false.
Proof. done. Qed.

(** A stored text that is not undone, or a new text that is not applied,
    contributes nothing: it classifies as empty. *)
Lemma classOf_unapplied text :
  truthy (trim text) = false -> classOf toLowerCase (Some text) = js "".
Proof. apply normalizeResult_blank. Qed.

(** A slot whose text is blank counts in none of the three counters. *)
Lemma blank_slot_not_counted text :
  truthy (trim text) = false ->
  countsAsHit toLowerCase (Some text) = false /\
  countsAsAtBat toLowerCase (Some text) = false /\
  countsAsWalk toLowerCase (Some text) = false.
Proof.
  intros H. unfold countsAsHit, countsAsAtBat, countsAsWalk.
  by rewrite (classOf_unapplied _ H).
Qed.

(** A slot counts as an at-bat when its text is not blank and its class
    is none of the four that are no at-bat. *)
Lemma countsAsAtBat_iff text :
  countsAsAtBat toLowerCase (Some text) = true <->
  trim text <> [] /\ ~ In (normalizeResult toLowerCase text) nonAtBatResults.
Proof.
  unfold countsAsAtBat, classOf.
  rewrite andb_true_iff, negb_true_iff, <- not_true_iff_false, arrayIncludes_In.
  rewrite truthy_true_iff, <- normalizeResult_empty_iff.
  change (js "") with (@nil N). reflexivity.
Qed.

Lemma applyResult_results stats atBatIndex result :
  results (applyResult toLowerCase stats atBatIndex result)
  = JsArray.set (results stats) atBatIndex (Some result).
Proof.
  unfold applyResult.
  destruct (JsArray.get (results stats) atBatIndex) as [old|];
    [destruct (truthy old)|]; destruct (truthy (trim result));
    by rewrite ?updateStatsForResult_spec.
Qed.

(** The counters after an edit: the old content of the slot is taken
    out, the new content is put in, and the result is clamped at zero. *)
Lemma applyResult_counters stats atBatIndex result :
  let old := JsArray.get (results stats) atBatIndex in
  let new := applyResult toLowerCase stats atBatIndex result in
  hits new = Z.max 0 (hits stats - b2z (countsAsHit toLowerCase old)
                      + b2z (countsAsHit toLowerCase (Some result))) /\
  atBats new = Z.max 0 (atBats stats - b2z (countsAsAtBat toLowerCase old)
                        + b2z (countsAsAtBat toLowerCase (Some result))) /\
  walks new = Z.max 0 (walks stats - b2z (countsAsWalk toLowerCase old)
                       + b2z (countsAsWalk toLowerCase (Some result))).
Proof.
  intros old new. subst new. unfold applyResult. fold old.
  pose proof (blank_slot_not_counted result) as Hnew.
  assert (Hold : forall o, truthy o = false ->
            countsAsHit toLowerCase (Some o) = false /\
            countsAsAtBat toLowerCase (Some o) = false /\
            countsAsWalk toLowerCase (Some o) = false).
  { intros o H. apply truthy_false_nil in H. by subst o. }
  destruct old as [o|].
  - destruct (truthy o) eqn:Ho; destruct (truthy (trim result)) eqn:Hr;
      rewrite ?updateStatsForResult_spec; cbn [hits atBats walks results];
      try (destruct (Hnew eq_refl) as (-> & -> & ->));
      try (destruct (Hold o Ho) as (-> & -> & ->));
      unfold countsAsHit, countsAsAtBat, countsAsWalk, classOf;
      cbn [b2z]; repeat split; f_equal; lia.
  - destruct (truthy (trim result)) eqn:Hr;
      rewrite ?updateStatsForResult_spec; cbn [hits atBats walks results];
      try (destruct (Hnew eq_refl) as (-> & -> & ->));
      unfold countsAsHit, countsAsAtBat, countsAsWalk, classOf;
      change (arrayIncludes hitResults (js "")) with false;
      change (arrayIncludes walkResults (js "")) with false;
      change (truthy (js "")) with false;
      cbn [b2z andb]; repeat split; f_equal; lia.
Qed.

Lemma applyResult_consistent stats atBatIndex result :
  consistent toLowerCase stats ->
  consistent toLowerCase (applyResult toLowerCase stats atBatIndex result).
Proof.
  intros (Hh & Ha & Hw).
  pose proof (applyResult_counters stats atBatIndex result) as Hc.
  cbv zeta in Hc. destruct Hc as (Hh' & Ha' & Hw').
  unfold consistent.
  rewrite applyResult_results, Hh', Ha', Hw', Hh, Ha, Hw.
  repeat split;
    rewrite <- (countIf_set _ (results stats) atBatIndex (Some result)) by done;
    apply Z.max_r, countIf_nonneg.
Qed.

Lemma stats_ext (s1 s2 : BattingStats) :
  hits s1 = hits s2 -> atBats s1 = atBats s2 -> walks s1 = walks s2 ->
  results s1 = results s2 -> s1 = s2.
Proof. destruct s1, s2; simpl; congruence. Qed.

(** Editing a slot again with the text it already holds changes nothing. *)
Lemma applyResult_idem stats atBatIndex result :
  applyResult toLowerCase
    (applyResult toLowerCase stats atBatIndex result) atBatIndex result
  = applyResult toLowerCase stats atBatIndex result.
Proof.
  set (once := applyResult toLowerCase stats atBatIndex result).
  pose proof (applyResult_counters once atBatIndex result) as Hc.
  cbv zeta in Hc. destruct Hc as (Hh & Ha & Hw).
  pose proof (applyResult_counters stats atBatIndex result) as Hc.
  cbv zeta in Hc. fold once in Hc. destruct Hc as (Hh1 & Ha1 & Hw1).
  assert (Hr : results once
               = JsArray.set (results stats) atBatIndex (Some result))
    by apply applyResult_results.
  rewrite Hr, array_get_set_eq in Hh, Ha, Hw.
  apply stats_ext.
  - rewrite Hh. lia.
  - rewrite Ha. lia.
  - rewrite Hw. lia.
  - rewrite applyResult_results, Hr. apply array_set_set.
Qed.

(** *** One edit on the game state *)

Lemma updateBattingResult_battingStats playerIndex atBatIndex result g :
  battingStats (updateBattingResult toLowerCase playerIndex atBatIndex result g)
  = <[playerIndex :=
        Some (applyResult toLowerCase (statsAt g playerIndex) atBatIndex result)]>
      (battingStats g).
Proof.
  unfold updateBattingResult, statsAt. cbn [battingStats withBattingStats].
  destruct (objGet (battingStats g) playerIndex) as [s|] eqn:Hs.
  - by rewrite Hs.
  - rewrite objGet_insert_eq. cbn [default from_option].
    by rewrite insert_insert_eq.
Qed.

Lemma updateBattingResult_eq playerIndex atBatIndex result g :
  updateBattingResult toLowerCase playerIndex atBatIndex result g
  = withBattingStats g
      (<[playerIndex :=
           Some (applyResult toLowerCase (statsAt g playerIndex)
                   atBatIndex result)]> (battingStats g)).
Proof.
  rewrite <- updateBattingResult_battingStats.
  by unfold updateBattingResult, withBattingStats.
Qed.

Lemma statsAt_update_eq playerIndex atBatIndex result g :
  statsAt (updateBattingResult toLowerCase playerIndex atBatIndex result g)
          playerIndex
  = applyResult toLowerCase (statsAt g playerIndex) atBatIndex result.
Proof.
  unfold statsAt at 1.
  by rewrite updateBattingResult_battingStats, objGet_insert_eq.
Qed.

Lemma statsAt_update_ne playerIndex atBatIndex result g q :
  q <> playerIndex ->
  statsAt (updateBattingResult toLowerCase playerIndex atBatIndex result g) q
  = statsAt g q.
Proof.
  intros Hq. unfold statsAt.
  by rewrite updateBattingResult_battingStats, objGet_insert_ne.
Qed.

Lemma runEdits_consistent edits g p :
  consistent toLowerCase (statsAt g p) ->
  consistent toLowerCase (statsAt (runEdits toLowerCase edits g) p).
Proof.
  revert g. induction edits as [|[[q i] r] edits IH]; intros g Hg; [done|].
  apply IH. cbn [fst snd].
  destruct (decide (p = q)) as [->|Hne].
  - rewrite statsAt_update_eq. by apply applyResult_consistent.
  - by rewrite statsAt_update_ne.
Qed.

(** An edit, once the old and the new content of the slot are classified. *)
Lemma applyResult_classified stats atBatIndex result cOld cNew :
  classOf toLowerCase (JsArray.get (results stats) atBatIndex) = cOld ->
  classOf toLowerCase (Some result) = cNew ->
  applyResult toLowerCase stats atBatIndex result =
  {| hits := Z.max 0 (hits stats - b2z (arrayIncludes hitResults cOld)
                      + b2z (arrayIncludes hitResults cNew));
     atBats := Z.max 0
       (atBats stats
        - b2z (truthy cOld && negb (arrayIncludes nonAtBatResults cOld))
        + b2z (truthy cNew && negb (arrayIncludes nonAtBatResults cNew)));
     walks := Z.max 0 (walks stats - b2z (arrayIncludes walkResults cOld)
                       + b2z (arrayIncludes walkResults cNew));
     results := JsArray.set (results stats) atBatIndex (Some result) |}.
Proof.
  intros <- <-.
  pose proof (applyResult_counters stats atBatIndex result) as Hc.
  cbv zeta in Hc. destruct Hc as (Hh & Ha & Hw).
  apply stats_ext; cbn [hits atBats walks results];
    [exact Hh | exact Ha | exact Hw | apply applyResult_results].
Qed.

(** A double token does not decide when a generic-hit token is there
    too, whatever the lower-casing does elsewhere. *)
Lemma double_with_hit_token_any_lower :
  toLowerCase (js "二塁打ヒット") = js "二塁打ヒット" ->
  normalizeResult toLowerCase (js "二塁打ヒット") = js "hit".
Proof.
  intros H. unfold normalizeResult. rewrite H. vm_compute. reflexivity.
Qed.

(** *** The claims on the classifier and the ledger *)

(** C1, as amended. For every text that is not blank, the classifier
    tests the generic hit first, then the double, the triple and the
    home run, and the first test that succeeds decides: a text with a
    generic-hit token is a hit whatever else it contains, and a double,
    triple or home-run token only decides when no earlier test of this
    order succeeded. *)
Theorem classifier_tests_generic_hit_first text :
  truthy (trim text) = true ->
  let t := trim (toLowerCase text) in
  (hitToken t = true -> normalizeResult toLowerCase text = js "hit") /\
  (hitToken t = false -> doubleToken t = true ->
     normalizeResult toLowerCase text = js "2hit") /\
  (hitToken t = false -> doubleToken t = false -> tripleToken t = true ->
     normalizeResult toLowerCase text = js "3hit") /\
  (hitToken t = false -> doubleToken t = false -> tripleToken t = false ->
     homerunToken t = true ->
     normalizeResult toLowerCase text = js "homerun").
Proof.
  intros H t. pose proof (normalizeResult_leading text H) as E.
  cbv zeta in E. fold t in E.
  repeat split; intros; rewrite E;
    repeat match goal with Hb : _ = _ |- _ => rewrite Hb; clear Hb end; done.
Qed.

(** C2. Start from a stats object that is all zero with no results (a
    fresh or missing entry) and play any sequence of edits: at the end the
    cached counters of that player are the counts recomputed from the
    stored results, hits counting the results classified hit, double,
    triple or home run, at-bats the results that are not empty and not
    classified walk, hit-by-pitch, sacrifice bunt or sacrifice fly, and
    walks the results classified walk or hit-by-pitch. *)
Theorem counters_equal_recount edits g playerIndex :
  statsAt g playerIndex = emptyStats ->
  let stats := statsAt (runEdits toLowerCase edits g) playerIndex in
  hits stats = countIf (countsAsHit toLowerCase) (results stats) /\
  atBats stats = countIf (countsAsAtBat toLowerCase) (results stats) /\
  walks stats = countIf (countsAsWalk toLowerCase) (results stats).
Proof.
  intros H0 stats. apply (runEdits_consistent edits g playerIndex).
  rewrite H0. by repeat split.
Qed.

(** C4. Whatever the stats object, the slot and the text, a second
    [updateBattingResult] with the same text on the same slot leaves the
    three counters (and the whole state) as the first one left them. *)
Theorem same_text_twice_idempotent playerIndex atBatIndex result g :
  let once := updateBattingResult toLowerCase playerIndex atBatIndex result g in
  let twice :=
    updateBattingResult toLowerCase playerIndex atBatIndex result once in
  hits (statsAt twice playerIndex) = hits (statsAt once playerIndex) /\
  atBats (statsAt twice playerIndex) = atBats (statsAt once playerIndex) /\
  walks (statsAt twice playerIndex) = walks (statsAt once playerIndex) /\
  twice = once.
Proof.
  intros once twice.
  assert (E : twice = once).
  { subst twice. rewrite updateBattingResult_eq.
    unfold once at 1 2. rewrite statsAt_update_eq, applyResult_idem.
    unfold once. rewrite (updateBattingResult_eq _ _ _ g).
    unfold withBattingStats. cbn [inning isTopHalf currentBatterIndex battingStats].
    by rewrite insert_insert_eq. }
  by rewrite E.
Qed.

(** C10. An edit writes the entry of [playerIndex] only: that entry
    becomes the edited copy of the old one (of the all-zero stats with no
    results when there was none), every other key of the dictionary holds
    what it held, and inning, half and current batter are unchanged. *)
Theorem updateBattingResult_frame playerIndex atBatIndex result g :
  let g' := updateBattingResult toLowerCase playerIndex atBatIndex result g in
  (forall q, q <> playerIndex -> battingStats g' !! q = battingStats g !! q) /\
  (objGet (battingStats g) playerIndex = None ->
   objGet (battingStats g') playerIndex
   = Some (applyResult toLowerCase emptyStats atBatIndex result)) /\
  (forall stats, objGet (battingStats g) playerIndex = Some stats ->
   objGet (battingStats g') playerIndex
   = Some (applyResult toLowerCase stats atBatIndex result)) /\
  inning g' = inning g /\
  isTopHalf g' = isTopHalf g /\
  currentBatterIndex g' = currentBatterIndex g.
Proof.
  intros g'. subst g'.
  repeat split; try done.
  - intros q Hq. rewrite updateBattingResult_battingStats.
    by rewrite lookup_insert_ne.
  - intros H. rewrite updateBattingResult_battingStats, objGet_insert_eq.
    unfold statsAt. by rewrite H.
  - intros stats H. rewrite updateBattingResult_battingStats, objGet_insert_eq.
    unfold statsAt. by rewrite H.
Qed.

(** C5. The counter delta of an outcome: walk, hit-by-pitch, sacrifice
    bunt and sacrifice fly leave at-bats alone; every other outcome that
    is not empty (custom, error, grounder, fly and strikeout among them)
    adds one at-bat; hit, double, triple and home run add one hit; walk
    and hit-by-pitch add one walk; empty changes nothing. With a
    lower-casing that leaves the three Japanese texts as they are, a
    fresh player given the results 三振, 左安 and two empty ones has one
    hit, two at-bats and no walk, and overwriting slot 0 with 四球 gives
    one hit, one at-bat and one walk. *)
Theorem counter_delta_rule :
  toLowerCase (js "三振") = js "三振" ->
  toLowerCase (js "左安") = js "左安" ->
  toLowerCase (js "四球") = js "四球" ->
  (forall stats c, In c nonAtBatResults ->
     atBats (updateStatsForResult stats c 1) = atBats stats) /\
  (forall stats c, truthy c = true -> ~ In c nonAtBatResults ->
     atBats (updateStatsForResult stats c 1) = atBats stats + 1) /\
  (forall stats,
     Forall (fun c => atBats (updateStatsForResult stats c 1) = atBats stats + 1)
       [js "custom"; js "error"; js "grounder"; js "fly"; js "strikeout"]) /\
  (forall stats c, In c hitResults ->
     hits (updateStatsForResult stats c 1) = hits stats + 1) /\
  (forall stats c, In c walkResults ->
     walks (updateStatsForResult stats c 1) = walks stats + 1) /\
  (forall stats multiplier,
     updateStatsForResult stats (js "") multiplier = stats) /\
  (forall g p, statsAt g p = emptyStats ->
     let g1 :=
       runEdits toLowerCase
         [(p, 0%nat, js "三振"); (p, 1%nat, js "左安");
          (p, 2%nat, js ""); (p, 3%nat, js "")] g in
     statsAt g1 p =
       {| hits := 1; atBats := 2; walks := 0;
          results := [Some (js "三振"); Some (js "左安");
                      Some (js ""); Some (js "")] |} /\
     statsAt (updateBattingResult toLowerCase p 0 (js "四球") g1) p =
       {| hits := 1; atBats := 1; walks := 1;
          results := [Some (js "四球"); Some (js "左安");
                      Some (js ""); Some (js "")] |}).
Proof.
  intros Hk Hh Hw.
  assert (Ck : normalizeResult toLowerCase (js "三振") = js "strikeout").
  { unfold normalizeResult. rewrite Hk. vm_compute. reflexivity. }
  assert (Ch : normalizeResult toLowerCase (js "左安") = js "hit").
  { unfold normalizeResult. rewrite Hh. vm_compute. reflexivity. }
  assert (Cw : normalizeResult toLowerCase (js "四球") = js "walk").
  { unfold normalizeResult. rewrite Hw. vm_compute. reflexivity. }
  assert (Ce : normalizeResult toLowerCase (js "") = js "").
  { by apply normalizeResult_blank. }
  split; [|split; [|split; [|split; [|split; [|split]]]]].
  - intros stats c Hc. rewrite updateStatsForResult_spec. cbn [atBats].
    apply arrayIncludes_In in Hc. rewrite Hc, andb_false_r. cbn [b2z]. lia.
  - intros stats c Ht Hc. rewrite updateStatsForResult_spec. cbn [atBats].
    rewrite Ht. destruct (arrayIncludes nonAtBatResults c) eqn:E.
    + by apply arrayIncludes_In in E.
    + cbn [b2z andb negb]. lia.
  - intros stats. repeat constructor;
      rewrite updateStatsForResult_spec; cbn [atBats];
      match goal with |- context [b2z ?b] =>
        replace b with true by (vm_compute; reflexivity) end;
      cbn [b2z]; lia.
  - intros stats c Hc. rewrite updateStatsForResult_spec. cbn [hits].
    apply arrayIncludes_In in Hc. rewrite Hc. cbn [b2z]. lia.
  - intros stats c Hc. rewrite updateStatsForResult_spec. cbn [walks].
    apply arrayIncludes_In in Hc. rewrite Hc. cbn [b2z]. lia.
  - apply updateStatsForResult_empty.
  - intros g p H0 g1.
    assert (E1 : statsAt g1 p =
       {| hits := 1; atBats := 2; walks := 0;
          results := [Some (js "三振"); Some (js "左安");
                      Some (js ""); Some (js "")] |}).
    { subst g1. unfold runEdits. cbn [foldl fst snd].
      rewrite !statsAt_update_eq, H0.
      rewrite (applyResult_classified emptyStats 0 (js "三振")
                 (js "") (js "strikeout")) by (try exact Ck; reflexivity).
      match goal with |- context [applyResult _ ?s 1%nat _] =>
        let s' := eval vm_compute in s in change s with s' end.
      rewrite (applyResult_classified _ 1 (js "左安")
                 (js "") (js "hit")) by (try exact Ch; reflexivity).
      match goal with |- context [applyResult _ ?s 2%nat _] =>
        let s' := eval vm_compute in s in change s with s' end.
      rewrite (applyResult_classified _ 2 (js "")
                 (js "") (js "")) by (try exact Ce; reflexivity).
      match goal with |- context [applyResult _ ?s 3%nat _] =>
        let s' := eval vm_compute in s in change s with s' end.
      rewrite (applyResult_classified _ 3 (js "")
                 (js "") (js "")) by (try exact Ce; reflexivity).
      vm_compute. reflexivity. }
    split; [exact E1|].
    rewrite statsAt_update_eq, E1.
    rewrite (applyResult_classified _ 0 (js "四球")
               (js "strikeout") (js "walk")) by (try exact Cw; exact Ck).
    vm_compute. reflexivity.
Qed.

End LedgerFacts.

(** ** Inning cursor *)

(** C3, as amended. Stepping back goes from the bottom to the top of the
    same inning and from the top to the bottom of the previous inning,
    both only when the inning is above 1; in inning 1 it changes nothing,
    in either half; the inning never goes below 1; batter and stats are
    never touched. *)
Theorem retreat_transitions g :
  (isTopHalf g = false -> inning g > 1 ->
     retreat g = {| inning := inning g; isTopHalf := true;
                    currentBatterIndex := currentBatterIndex g;
                    battingStats := battingStats g |}) /\
  (isTopHalf g = true -> inning g > 1 ->
     retreat g = {| inning := inning g - 1; isTopHalf := false;
                    currentBatterIndex := currentBatterIndex g;
                    battingStats := battingStats g |}) /\
  (inning g <= 1 -> retreat g = g) /\
  (1 <= inning g -> 1 <= inning (retreat g)).
Proof.
  unfold retreat. destruct g as [n top b stats]. cbn [inning isTopHalf].
  destruct (Z.gtb_spec n 1) as [Hgt | Hle]; destruct top; cbn [negb andb];
    repeat split; intros; try done; try lia; cbn [inning]; lia.
Qed.

(** Stepping forward and back returns to the same half, except from the
    top of inning 1, where the step back is refused. *)
Lemma retreat_advance g :
  1 <= inning g -> (isTopHalf g = true -> 1 < inning g) ->
  retreat (advance g) = g.
Proof.
  intros H1 Htop. destruct g as [n top b stats]. cbn in *.
  unfold retreat, advance. cbn [isTopHalf inning]. destruct top; cbn.
  - destruct (Z.gtb_spec n 1); [done|]. specialize (Htop eq_refl). lia.
  - destruct (Z.gtb_spec (n + 1) 1); [|lia]. f_equal. lia.
Qed.

Example advance_third_bottom :
  advance thirdInningBottom
  = {| inning := 4; isTopHalf := true; currentBatterIndex := 0;
       battingStats := ∅ |}.
Proof. reflexivity. Qed.

Example retreat_advance_initial :
  retreat (advance initialGameState) = firstInningBottom.
Proof. reflexivity. Qed.

(** ** Roster *)

(** C9. With a name that is empty after trim, [addPlayer] alerts and
    returns: the state it leaves is the state it found, the list of
    players and the stats dictionary included. *)
Theorem addPlayer_blank_name_aborts st :
  trim (playerName st) = [] ->
  addPlayer st = (st, [Alert (js "選手名を入力してください")]) /\
  players (addPlayer st).1 = players st /\
  battingStats (gameState (addPlayer st).1) = battingStats (gameState st).
Proof.
  intros H. unfold addPlayer. rewrite H.
  change (truthy []) with false. cbn [negb fst].
  repeat split; reflexivity.
Qed.

Lemma filterIndex_all {A} (keep : nat -> bool) n (a : list A) :
  (forall i, (n <= i)%nat -> keep i = true) -> filterIndex keep n a = a.
Proof.
  revert n. induction a as [|x a IH]; intros n Hk; [done|].
  cbn [filterIndex]. rewrite Hk by lia. f_equal. apply IH. intros; apply Hk; lia.
Qed.

(** [players.filter((_, i) => i !== index)] removes position [index]. *)
Lemma filterIndex_delete {A} (a : list A) n d :
  filterIndex (fun i => negb (i =? n + d)%nat) n a = delete d a.
Proof.
  revert n d. induction a as [|x a IH]; intros n d; [done|].
  cbn [filterIndex]. destruct d as [|d].
  - rewrite Nat.add_0_r, Nat.eqb_refl. cbn [negb].
    apply filterIndex_all. intros i Hi.
    apply negb_true_iff, Nat.eqb_neq. lia.
  - replace (n =? n + S d)%nat with false
      by (symmetry; apply Nat.eqb_neq; lia).
    cbn [negb]. change (delete (S d) (x :: a)) with (x :: delete d a). f_equal.
    replace (n + S d)%nat with (S n + d)%nat by lia. apply IH.
Qed.

(** The dictionary after the [forEach] of [deletePlayer]: below [index]
    the old value of the key, from [index] on the old value of the next
    key. *)
Lemma rekey_lookup {A} index (b : gmap nat A) k :
  map_fold (rekeyStep index) ∅ b !! k
  = if (k <? index)%nat then b !! k else b !! S k.
Proof.
  revert k.
  apply (map_fold_weak_ind
    (fun r m => forall k, r !! k = if (k <? index)%nat then m !! k else m !! S k)).
  - intros k. rewrite !lookup_empty. by destruct (k <? index)%nat.
  - intros i x m r Hi IH k. unfold rekeyStep.
    destruct (Nat.ltb_spec i index) as [Hlt | Hge].
    + destruct (decide (k = i)) as [->|Hne].
      * rewrite lookup_insert_eq.
        destruct (Nat.ltb_spec i index); [|lia]. by rewrite lookup_insert_eq.
      * rewrite lookup_insert_ne, IH by done.
        destruct (Nat.ltb_spec k index);
          rewrite lookup_insert_ne; done || lia.
    + destruct (Nat.ltb_spec index i) as [Hlt | Heq].
      * destruct (decide (k = i - 1)%nat) as [->|Hne].
        -- rewrite lookup_insert_eq.
           destruct (Nat.ltb_spec (i - 1) index); [lia|].
           replace (S (i - 1)) with i by lia. by rewrite lookup_insert_eq.
        -- rewrite lookup_insert_ne, IH by done.
           destruct (Nat.ltb_spec k index);
             rewrite lookup_insert_ne; done || lia.
      * rewrite IH.
        destruct (Nat.ltb_spec k index);
          rewrite lookup_insert_ne; done || lia.
Qed.

(** C6. Deleting the player at a valid index (the dialog confirmed)
    removes that player from the list and re-keys the dictionary: every
    entry above the index moves down by one, every entry below stays, and
    the entry of the index itself is carried nowhere. Inning, half and
    current batter are unchanged. *)
Theorem deletePlayer_rekeys st index player :
  JsArray.get (players st) index = Some player ->
  exists st',
    deletePlayer true index st = Some st' /\
    players st' = delete index (players st) /\
    (forall k, (k < index)%nat ->
       battingStats (gameState st') !! k = battingStats (gameState st) !! k) /\
    (forall k, (index < k)%nat ->
       battingStats (gameState st') !! (k - 1)%nat
       = battingStats (gameState st) !! k) /\
    (forall k v, battingStats (gameState st') !! k = Some v ->
       exists k', k' <> index /\ battingStats (gameState st) !! k' = Some v /\
                  k = if (k' <? index)%nat then k' else (k' - 1)%nat) /\
    inning (gameState st') = inning (gameState st) /\
    isTopHalf (gameState st') = isTopHalf (gameState st) /\
    currentBatterIndex (gameState st') = currentBatterIndex (gameState st).
Proof.
  intros Hp. unfold deletePlayer. rewrite Hp.
  eexists. split; [reflexivity|].
  cbn [players gameState withBattingStats battingStats inning isTopHalf
       currentBatterIndex].
  split; [apply (filterIndex_delete (players st) 0 index)|].
  split; [|split; [|split; [|done]]].
  - intros k Hk. rewrite rekey_lookup.
    by destruct (Nat.ltb_spec k index); [|lia].
  - intros k Hk. rewrite rekey_lookup.
    destruct (Nat.ltb_spec (k - 1) index); [lia|].
    by replace (S (k - 1)) with k by lia.
  - intros k v. rewrite rekey_lookup.
    destruct (Nat.ltb_spec k index) as [Hlt | Hge]; intros Hv.
    + exists k. split; [lia|]. split; [done|].
      by destruct (Nat.ltb_spec k index); [|lia].
    + exists (S k). split; [lia|]. split; [done|].
      destruct (Nat.ltb_spec (S k) index); lia.
Qed.

(** C7. When the neighbour position exists, one [movePlayer] swaps the
    two players and the two stats entries in the one state it sets:
    reading either structure at [index] gives what was at the neighbour
    and the other way round, and every other position of both is
    unchanged. When the neighbour does not exist nothing is changed. *)
Theorem movePlayer_swaps st index direction :
  let newIndex :=
    match direction with
    | up => Z.of_nat index - 1
    | down => Z.of_nat index + 1
    end in
  let j := Z.to_nat newIndex in
  let st' := movePlayer index direction st in
  (0 <= newIndex < Z.of_nat (length (players st)) ->
     JsArray.get (players st') index = JsArray.get (players st) j /\
     JsArray.get (players st') j = JsArray.get (players st) index /\
     objGet (battingStats (gameState st')) index
       = objGet (battingStats (gameState st)) j /\
     objGet (battingStats (gameState st')) j
       = objGet (battingStats (gameState st)) index /\
     (forall k, k <> index -> k <> j ->
        JsArray.get (players st') k = JsArray.get (players st) k /\
        battingStats (gameState st') !! k = battingStats (gameState st) !! k)) /\
  (~ 0 <= newIndex < Z.of_nat (length (players st)) -> st' = st).
Proof.
  intros newIndex j st'. subst st'. unfold movePlayer. fold newIndex. fold j.
  split.
  - intros [H0 Hlen].
    destruct (Z.ltb_spec newIndex 0); [lia|].
    destruct (Z.geb_spec newIndex (Z.of_nat (length (players st)))); [lia|].
    cbn [orb players gameState withBattingStats battingStats].
    assert (Hij : index <> j) by (subst j newIndex; destruct direction; lia).
    repeat split.
    + rewrite array_get_set_ne, array_get_set_eq; done.
    + by rewrite array_get_set_eq.
    + rewrite objGet_insert_ne, objGet_insert_eq; done.
    + by rewrite objGet_insert_eq.
    + rewrite !array_get_set_ne; done.
    + rewrite !lookup_insert_ne; done.
  - intros Hn.
    destruct (Z.ltb_spec newIndex 0); [done|].
    destruct (Z.geb_spec newIndex (Z.of_nat (length (players st)))); [done|].
    lia.
Qed.

(** ** Team totals *)

Lemma foldl_addStats (f := fun g vs => foldr Z.add 0 (map (from_option g 0) vs))
    (vs : list (option BattingStats)) h a w :
  Forall is_Some vs ->
  foldl addStats (Some (h, a, w)) vs
  = Some (h + f hits vs, a + f atBats vs, w + f walks vs).
Proof.
  subst f. cbv beta.
  revert h a w. induction vs as [|v vs IH]; intros h a w Hall.
  - cbn. by rewrite !Z.add_0_r.
  - destruct (Forall_cons_1 _ _ _ Hall) as [[s ->] Hvs].
    cbn [foldl addStats]. rewrite IH by done.
    cbn [map foldr from_option]. do 2 f_equal; [f_equal|]; lia.
Qed.

Lemma total_values f (b : gmap nat (option BattingStats)) :
  total f b = foldr Z.add 0 (map (from_option f 0) (map snd (map_to_list b))).
Proof. unfold total. by rewrite map_map. Qed.

Lemma total_empty f : total f ∅ = 0.
Proof. unfold total. by rewrite map_to_list_empty. Qed.

Lemma sum_permutation (l1 l2 : list Z) :
  l1 ≡ₚ l2 -> foldr Z.add 0 l1 = foldr Z.add 0 l2.
Proof. induction 1; cbn; lia. Qed.

(** [total] is the sum over the entries: a new key adds its counter. *)
Lemma total_insert f (b : gmap nat (option BattingStats)) k s :
  b !! k = None -> total f (<[k := Some s]> b) = f s + total f b.
Proof.
  intros Hk. unfold total.
  rewrite (sum_permutation _
    (map (fun kv => from_option f 0 kv.2) ((k, Some s) :: map_to_list b))).
  - done.
  - apply Permutation_map, map_to_list_insert, Hk.
Qed.

Lemma wellFormed_values b :
  wellFormed b -> Forall is_Some (map snd (map_to_list b)).
Proof.
  intros Hwf. apply Forall_forall. intros v Hv.
  apply list_elem_of_In, in_map_iff in Hv. destruct Hv as ([k v'] & <- & Hin).
  apply list_elem_of_In, elem_of_map_to_list in Hin.
  specialize (Hwf k v' Hin). by destruct v' as [s|]; [exists s|].
Qed.

Lemma total_nonneg f b :
  (forall k v, b !! k = Some v -> exists s, v = Some s /\ 0 <= f s) ->
  0 <= total f b.
Proof.
  intros Hwf. unfold total.
  assert (H : Forall (fun kv => 0 <= from_option f 0 kv.2) (map_to_list b)).
  { apply Forall_forall. intros [k v] Hin.
    apply elem_of_map_to_list in Hin.
    destruct (Hwf k v Hin) as (s & -> & Hs). done. }
  induction H as [|kv l Hkv _ IH]; cbn; lia.
Qed.

(** C8. On a dictionary of stats objects with counters that are not
    negative, the aggregator returns the three sums over the entries,
    avg = hits / atBats to 3 decimals or the sentinel when atBats is 0,
    and obp = (hits + walks) / (atBats + walks) to 3 decimals or the
    sentinel when that denominator is 0; on the empty dictionary the
    totals are 0, 0, 0 and both rates are the sentinel. *)
Theorem getTeamStats_rates g :
  wellFormed (battingStats g) ->
  let H := total hits (battingStats g) in
  let A := total atBats (battingStats g) in
  let W := total walks (battingStats g) in
  getTeamStats g
  = Some {| totalHits := H; totalAtBats := A; totalWalks := W;
            avg := rate H A; obp := rate (H + W) (A + W) |} /\
  (battingStats g = ∅ ->
   getTeamStats g
   = Some {| totalHits := 0; totalAtBats := 0; totalWalks := 0;
             avg := sentinel; obp := sentinel |}).
Proof.
  intros Hwf H A W.
  assert (E : getTeamStats g
    = Some {| totalHits := H; totalAtBats := A; totalWalks := W;
              avg := rate H A; obp := rate (H + W) (A + W) |}).
  { unfold getTeamStats.
    rewrite (foldl_addStats _ 0 0 0 (wellFormed_values _ Hwf)).
    rewrite !Z.add_0_l, <- !total_values. fold H A W.
    assert (0 <= A).
    { apply total_nonneg. intros k v Hv.
      specialize (Hwf k v Hv). destruct v as [s|]; [|done].
      destruct Hwf as (? & ? & ?). eauto. }
    assert (0 <= W).
    { apply total_nonneg. intros k v Hv.
      specialize (Hwf k v Hv). destruct v as [s|]; [|done].
      destruct Hwf as (? & ? & ?). eauto. }
    unfold rate.
    destruct (Z.gtb_spec A 0), (Z.eqb_spec A 0); try lia;
      destruct (Z.gtb_spec (A + W) 0), (Z.eqb_spec (A + W) 0); try lia; done. }
  split; [exact E|].
  intros Hempty. rewrite E. subst H A W. rewrite Hempty, !total_empty. done.
Qed.

(** ** The three decimals of a rate *)

Lemma roundScaled_exact f m e :
  0 <= e -> roundScaled f m e = Z.pos m * 10 ^ Z.of_nat f * 2 ^ e.
Proof.
  intros He. unfold roundScaled. by destruct (Z.leb_spec 0 e); [|lia].
Qed.

(** For a double [m * 2^e] with a fractional part, the integer chosen is
    the nearest to [m * 2^e * 10^f], the upper one of two: with
    [d = 2^(-e)], [n <= m * 10^f / d + 1/2 < n + 1] reads
    [2 d n <= 2 m 10^f + d < 2 d (n + 1)]. *)
Lemma roundScaled_nearest f m e :
  e < 0 ->
  let n := roundScaled f m e in
  let d := 2 ^ (- e) in
  2 * d * n <= 2 * (Z.pos m * 10 ^ Z.of_nat f) + d < 2 * d * (n + 1).
Proof.
  intros He n d. subst n. unfold roundScaled. cbv zeta.
  destruct (Z.leb_spec 0 e); [lia|]. fold d.
  replace (2 ^ (- e + 1)) with (2 * d)
    by (subst d; rewrite Z.pow_add_r by lia; lia).
  assert (0 < d) by (subst d; apply Z.pow_pos_nonneg; lia).
  set (x := 2 * (Z.pos m * 10 ^ Z.of_nat f) + d).
  pose proof (Z.mul_div_le x (2 * d) ltac:(lia)).
  pose proof (Z.mul_succ_div_gt x (2 * d) ltac:(lia)).
  set (q := x / (2 * d)) in *. nia.
Qed.

(** With three decimals asked for, the text is a whole part of at least
    one unit, a point, and exactly three units. *)
Lemma fixedDigits_shape n :
  exists whole frac,
    fixedDigits 3 n = whole ++ [46%N] ++ frac /\
    length frac = 3%nat /\ (1 <= length whole)%nat.
Proof.
  unfold fixedDigits.
  set (m := replicate (4 - length (decimal (Z.to_N n))) 48%N
            ++ decimal (Z.to_N n)).
  assert (Hm : (4 <= length m)%nat).
  { subst m. rewrite length_app, length_replicate. lia. }
  exists (take (length m - 3) m), (drop (length m - 3) m).
  split; [done|]. rewrite length_drop, length_take. lia.
Qed.




(** At 80 at-bats the two part: 3/80 is 0.0375, the double next to it is
    below, and [toFixed] shows 0.037. *)
Example rate_binary64_at_80 :
  rate 3 80 = js "0.037" /\ exactRate 3 80 = js "0.038".
Proof. vm_compute. done. Qed.

Example toFixed_samples :
  map (fun q => toFixed 3 (div (ofZ q.1) (ofZ q.2)))
      [(1, 2); (1, 3); (2, 3); (1, 1); (5, 16); (3, 80); (0, 4); (7, 2)]
  = [js "0.500"; js "0.333"; js "0.667"; js "1.000"; js "0.313";
     js "0.037"; js "0.000"; js "3.500"].
Proof. vm_compute. reflexivity. Qed.

(** The two rates of the ledger scenario: one hit in two at-bats, then
    one hit and one walk in one at-bat. *)
Example getTeamStats_scenario :
  let g1 :=
    runEdits toLowerCaseASCII
      [(0, 0, js "三振"); (0, 1, js "左安"); (0, 2, js ""); (0, 3, js "")]%nat
      initialGameState in
  let g2 := updateBattingResult toLowerCaseASCII 0 0 (js "四球") g1 in
  (avg <$> getTeamStats g1) = Some (js "0.500") /\
  (avg <$> getTeamStats g2) = Some (js "1.000") /\
  (obp <$> getTeamStats g2) = Some (js "1.000").
Proof. vm_compute. done. Qed.

(** A key that holds [undefined] (left by a swap with a position that had
    no entry) makes the aggregator throw. *)
Example getTeamStats_undefined_entry :
  getTeamStats (withBattingStats initialGameState (<[0%nat := None]> sampleStats))
  = None.
Proof. vm_compute. reflexivity. Qed.

(** ** Shared results arrays: the value-level ledger is adequate *)

Section SharedFacts.

Variable toLowerCase : jsstring -> jsstring.

Lemma view_lookup h k :
  Shared.view h !! k
  = fmap (fmap (Shared.deref (Shared.arrays h))) (Shared.entries h !! k).
Proof. unfold Shared.view. by rewrite lookup_fmap. Qed.

Lemma objGet_view h k :
  objGet (Shared.view h) k
  = Shared.deref (Shared.arrays h) <$> objGet (Shared.entries h) k.
Proof.
  unfold objGet. rewrite view_lookup.
  by destruct (Shared.entries h !! k) as [[o|]|].
Qed.

Lemma deref_insert_ne arrs l a o :
  Shared.resultsAt o <> l ->
  Shared.deref (<[l := a]> arrs) o = Shared.deref arrs o.
Proof. intros Hne. unfold Shared.deref. by rewrite lookup_insert_ne. Qed.

Lemma separated_alloc k arrs ents :
  Shared.separated {| Shared.arrays := arrs; Shared.entries := ents |} ->
  Shared.separated (Shared.allocEntry k arrs ents).
Proof.
  intros [Halloc Hsep]. cbn [Shared.arrays Shared.entries] in *.
  set (l := fresh (dom arrs)).
  assert (Hl : forall k' o, objGet ents k' = Some o -> Shared.resultsAt o <> l).
  { intros k' o Ho Heq. apply Halloc in Ho. rewrite Heq in Ho.
    apply elem_of_dom in Ho. by apply (is_fresh (dom arrs)). }
  unfold Shared.allocEntry. fold l. split; cbn [Shared.arrays Shared.entries].
  - intros k' o. destruct (decide (k' = k)) as [->|Hne].
    + rewrite objGet_insert_eq. intros [= <-]. cbn. by rewrite lookup_insert_eq.
    + rewrite objGet_insert_ne by done. intros Ho.
      rewrite lookup_insert_ne by (symmetry; eauto). eauto.
  - intros k1 k2 o1 o2.
    destruct (decide (k1 = k)) as [->|H1], (decide (k2 = k)) as [->|H2];
      rewrite ?objGet_insert_eq, ?objGet_insert_ne by done; try done.
    + intros [= <-] Ho2 Heq. cbn in Heq. by destruct (Hl _ _ Ho2).
    + intros Ho1 [= <-] Heq. cbn in Heq. by destruct (Hl _ _ Ho1).
    + apply Hsep.
Qed.

Lemma view_alloc k arrs ents :
  Shared.separated {| Shared.arrays := arrs; Shared.entries := ents |} ->
  Shared.view (Shared.allocEntry k arrs ents)
  = <[k := Some emptyStats]>
      (Shared.view {| Shared.arrays := arrs; Shared.entries := ents |}).
Proof.
  intros [Halloc _]. cbn [Shared.arrays Shared.entries] in *.
  apply map_eq. intros k'. rewrite view_lookup.
  unfold Shared.allocEntry. cbn [Shared.arrays Shared.entries].
  destruct (decide (k' = k)) as [->|Hne].
  - rewrite !lookup_insert_eq. cbn. unfold Shared.deref. cbn.
    by rewrite lookup_insert_eq.
  - rewrite !lookup_insert_ne by done. rewrite view_lookup.
    cbn [Shared.arrays Shared.entries].
    destruct (ents !! k') as [[o|]|] eqn:Ho; [|done..]. cbn. do 2 f_equal.
    apply deref_insert_ne. intros Heq.
    assert (Hs : is_Some (arrs !! Shared.resultsAt o)).
    { apply (Halloc k'). unfold objGet. by rewrite Ho. }
    rewrite Heq in Hs. apply elem_of_dom in Hs.
    by apply (is_fresh (dom arrs)).
Qed.

(** A write into the array of the entry at [k], stored back with new
    counters. *)
Lemma separated_write h k o o' a :
  Shared.separated h ->
  objGet (Shared.entries h) k = Some o ->
  Shared.resultsAt o' = Shared.resultsAt o ->
  Shared.separated
    {| Shared.arrays := <[Shared.resultsAt o := a]> (Shared.arrays h);
       Shared.entries := <[k := Some o']> (Shared.entries h) |}.
Proof.
  intros [Halloc Hsep] Hk Hloc. split; cbn [Shared.arrays Shared.entries].
  - intros k' o2. destruct (decide (k' = k)) as [->|Hne].
    + rewrite objGet_insert_eq. intros [= <-]. rewrite Hloc.
      by rewrite lookup_insert_eq.
    + rewrite objGet_insert_ne by done. intros Ho2.
      apply lookup_insert_is_Some'. right. eauto.
  - intros k1 k2 o1 o2.
    destruct (decide (k1 = k)) as [->|H1], (decide (k2 = k)) as [->|H2];
      rewrite ?objGet_insert_eq, ?objGet_insert_ne by done; try done.
    + intros [= <-] Ho2 Heq. rewrite Hloc in Heq. symmetry. eauto.
    + intros Ho1 [= <-] Heq. rewrite Hloc in Heq. eauto.
    + apply Hsep.
Qed.

Lemma view_write h k o o' a :
  Shared.separated h ->
  objGet (Shared.entries h) k = Some o ->
  Shared.resultsAt o' = Shared.resultsAt o ->
  Shared.view
    {| Shared.arrays := <[Shared.resultsAt o := a]> (Shared.arrays h);
       Shared.entries := <[k := Some o']> (Shared.entries h) |}
  = <[k := Some {| hits := Shared.hitsOf o'; atBats := Shared.atBatsOf o';
                   walks := Shared.walksOf o'; results := a |}]>
      (Shared.view h).
Proof.
  intros [_ Hsep] Hk Hloc. apply map_eq. intros k'.
  rewrite view_lookup. cbn [Shared.arrays Shared.entries].
  destruct (decide (k' = k)) as [->|Hne].
  - rewrite !lookup_insert_eq. cbn. unfold Shared.deref.
    by rewrite Hloc, lookup_insert_eq.
  - rewrite !lookup_insert_ne by done. rewrite view_lookup.
    destruct (Shared.entries h !! k') as [[o2|]|] eqn:Ho2; [|done..].
    cbn. do 2 f_equal. apply deref_insert_ne. intros Heq.
    apply Hne. apply (Hsep k' k o2 o); [|done..].
    unfold objGet. by rewrite Ho2.
Qed.

(** On a separated store the edit is the value-level edit of the view. *)
Theorem update_view playerIndex atBatIndex result h :
  Shared.separated h ->
  Shared.separated
    (Shared.update toLowerCase playerIndex atBatIndex result h) /\
  Shared.view (Shared.update toLowerCase playerIndex atBatIndex result h)
  = <[playerIndex :=
        Some (applyResult toLowerCase
                (default emptyStats (objGet (Shared.view h) playerIndex))
                atBatIndex result)]> (Shared.view h).
Proof.
  intros Hh. unfold Shared.update. rewrite objGet_view.
  destruct (objGet (Shared.entries h) playerIndex) as [o|] eqn:Ho.
  - rewrite Ho. cbn [fmap option_fmap option_map default from_option].
    set (stats := applyResult toLowerCase _ atBatIndex result).
    split.
    + by apply separated_write.
    + rewrite (view_write h playerIndex o) by done.
      cbn [Shared.hitsOf Shared.atBatsOf Shared.walksOf].
      by destruct stats.
  - destruct h as [arrs ents]. cbn [Shared.arrays Shared.entries] in *.
    pose proof (separated_alloc playerIndex arrs ents Hh) as Hh1.
    pose proof (view_alloc playerIndex arrs ents Hh) as Hv1.
    set (h1 := Shared.allocEntry playerIndex arrs ents) in *.
    assert (Ho1 : objGet (Shared.entries h1) playerIndex
                  = Some {| Shared.hitsOf := 0; Shared.atBatsOf := 0;
                            Shared.walksOf := 0;
                            Shared.resultsAt := fresh (dom arrs) |}).
    { subst h1. unfold Shared.allocEntry. cbn [Shared.entries].
      apply objGet_insert_eq. }
    rewrite Ho1.
    assert (Hd : Shared.deref (Shared.arrays h1)
                   {| Shared.hitsOf := 0; Shared.atBatsOf := 0;
                      Shared.walksOf := 0;
                      Shared.resultsAt := fresh (dom arrs) |} = emptyStats).
    { subst h1. unfold Shared.allocEntry, Shared.deref. cbn.
      by rewrite lookup_insert_eq. }
    rewrite Hd. cbn [fmap option_fmap option_map default from_option].
    set (stats := applyResult toLowerCase emptyStats atBatIndex result).
    split.
    + by apply (separated_write h1 playerIndex _ _ _ Hh1 Ho1).
    + rewrite (view_write h1 playerIndex _ _ _ Hh1 Ho1) by done.
      cbn [Shared.hitsOf Shared.atBatsOf Shared.walksOf].
      rewrite Hv1, insert_insert_eq. by destruct stats.
Qed.

(** Moving the stats objects between keys keeps them apart. *)
Lemma separated_reindex (rho : nat -> nat) h h' :
  (forall k1 k2, rho k1 = rho k2 -> k1 = k2) ->
  Shared.arrays h' = Shared.arrays h ->
  (forall k, objGet (Shared.entries h') k = objGet (Shared.entries h) (rho k)) ->
  Shared.separated h -> Shared.separated h'.
Proof.
  intros Hinj Harr Hent [Halloc Hsep]. split.
  - intros k o. rewrite Hent, Harr. apply Halloc.
  - intros k1 k2 o1 o2. rewrite !Hent. intros H1 H2 Heq.
    apply Hinj. by apply (Hsep _ _ o1 o2).
Qed.

Lemma separated_move index j h :
  Shared.separated h -> Shared.separated (Shared.move index j h).
Proof.
  apply (separated_reindex
    (fun k => if decide (k = j) then index
              else if decide (k = index) then j else k)); [|done|].
  - intros k1 k2. repeat case_decide; congruence.
  - intros k. unfold Shared.move. cbn [Shared.entries].
    destruct (decide (k = j)) as [->|Hj].
    + by rewrite objGet_insert_eq.
    + rewrite objGet_insert_ne by done.
      destruct (decide (k = index)) as [->|Hi].
      * by rewrite objGet_insert_eq.
      * by rewrite objGet_insert_ne.
Qed.

Lemma separated_delete index h :
  Shared.separated h -> Shared.separated (Shared.delete index h).
Proof.
  apply (separated_reindex
    (fun k => if (k <? index)%nat then k else S k)); [|done|].
  - intros k1 k2.
    destruct (Nat.ltb_spec k1 index), (Nat.ltb_spec k2 index); lia.
  - intros k. unfold Shared.delete, objGet. cbn [Shared.entries].
    rewrite rekey_lookup. by destruct (k <? index)%nat.
Qed.

Lemma view_move index j h :
  Shared.view (Shared.move index j h)
  = <[j := objGet (Shared.view h) index]>
      (<[index := objGet (Shared.view h) j]> (Shared.view h)).
Proof.
  unfold Shared.view, Shared.move. cbn [Shared.arrays Shared.entries].
  rewrite !fmap_insert. fold (Shared.view h). by rewrite !objGet_view.
Qed.

Lemma view_delete index h :
  Shared.view (Shared.delete index h)
  = map_fold (rekeyStep index) ∅ (Shared.view h).
Proof.
  apply map_eq. intros k. rewrite rekey_lookup, !view_lookup.
  unfold Shared.delete. cbn [Shared.arrays Shared.entries].
  rewrite rekey_lookup. by destruct (k <? index)%nat.
Qed.

(** The four handlers act on the view as the store operations do. *)
Theorem handlers_simulated st h :
  Shared.separated h ->
  battingStats (gameState st) = Shared.view h ->
  (forall playerIndex atBatIndex result,
     battingStats (updateBattingResult toLowerCase playerIndex atBatIndex
                     result (gameState st))
     = Shared.view
         (Shared.update toLowerCase playerIndex atBatIndex result h)) /\
  (truthy (trim (playerName st)) = true ->
     battingStats (gameState (addPlayer st).1)
     = Shared.view (Shared.add (length (players st)) h)) /\
  (forall index direction,
     let newIndex :=
       match direction with
       | up => Z.of_nat index - 1
       | down => Z.of_nat index + 1
       end in
     0 <= newIndex < Z.of_nat (length (players st)) ->
     battingStats (gameState (movePlayer index direction st))
     = Shared.view (Shared.move index (Z.to_nat newIndex) h)) /\
  (forall index st',
     deletePlayer true index st = Some st' ->
     battingStats (gameState st') = Shared.view (Shared.delete index h)).
Proof.
  intros Hsep Hview. split; [|split; [|split]].
  - intros p i r.
    destruct (update_view p i r h Hsep) as [_ ->].
    rewrite updateBattingResult_battingStats. unfold statsAt.
    by rewrite Hview.
  - intros Hname. unfold addPlayer. rewrite Hname.
    cbn [negb fst gameState battingStats withBattingStats].
    rewrite length_app. cbn [length].
    replace (length (players st) + 1 - 1)%nat with (length (players st)) by lia.
    unfold Shared.add. destruct h as [arrs ents].
    cbn [Shared.arrays Shared.entries].
    by rewrite (view_alloc _ arrs ents Hsep), Hview.
  - intros index direction newIndex Hguard. unfold movePlayer. fold newIndex.
    destruct (Z.ltb_spec newIndex 0); [lia|].
    destruct (Z.geb_spec newIndex (Z.of_nat (length (players st)))); [lia|].
    cbn [orb gameState battingStats withBattingStats].
    by rewrite view_move, Hview.
  - intros index st'. unfold deletePlayer.
    destruct (JsArray.get (players st) index); [|done].
    intros [= <-]. cbn [gameState battingStats withBattingStats].
    by rewrite view_delete, Hview.
Qed.

(** Every state the handlers build keeps the arrays apart. *)
Theorem reachable_separated h :
  Shared.reachable toLowerCase h -> Shared.separated h.
Proof.
  induction 1 as [|h p i r _ IH|h n _ IH|h i j _ IH|h i _ IH].
  - split; intros *; unfold objGet; cbn; by rewrite lookup_empty.
  - by apply update_view.
  - destruct h. by apply separated_alloc.
  - by apply separated_move.
  - by apply separated_delete.
Qed.

(** In every such state an edit of one player leaves what the other keys
    read, array contents included, as it was. *)
Theorem update_frame_shared playerIndex atBatIndex result h q :
  Shared.reachable toLowerCase h -> q <> playerIndex ->
  Shared.view (Shared.update toLowerCase playerIndex atBatIndex result h) !! q
  = Shared.view h !! q.
Proof.
  intros Hr Hq. apply reachable_separated in Hr.
  destruct (update_view playerIndex atBatIndex result h Hr) as [_ ->].
  by rewrite lookup_insert_ne.
Qed.

End SharedFacts.

(** With two keys on one array the write of one key shows at the other:
    the store does model the sharing. *)
Example update_aliased :
  Shared.view (Shared.update toLowerCaseASCII 0 0 (js "左安") Shared.aliased)
    !! 1%nat
  = Some (Some {| hits := 0; atBats := 0; walks := 0;
                  results := [Some (js "左安")] |}) /\
  Shared.view Shared.aliased !! 1%nat = Some (Some emptyStats).
Proof. vm_compute. done. Qed.

(** ** The claims at concrete inputs *)

(** C1, counterexample. The text 二塁打ヒット has a double token and a
    generic-hit token and classifies as hit, not as double. *)
Lemma double_with_hit_token_is_hit :
  doubleToken (trim (toLowerCaseASCII (js "二塁打ヒット"))) = true /\
  hitToken (trim (toLowerCaseASCII (js "二塁打ヒット"))) = true /\
  normalizeResult toLowerCaseASCII (js "二塁打ヒット") = js "hit" /\
  normalizeResult toLowerCaseASCII (js "二塁打ヒット") <> js "2hit".
Proof. vm_compute. repeat split; done. Qed.

(** C1 at two texts: one with both tokens, one with the double token
    only. *)
Lemma classifier_tests_generic_hit_first_witness :
  normalizeResult toLowerCaseASCII (js "二塁打ヒット") = js "hit" /\
  normalizeResult toLowerCaseASCII (js "左中間二塁打") = js "2hit".
Proof.
  split.
  - apply (classifier_tests_generic_hit_first toLowerCaseASCII
             (js "二塁打ヒット")); vm_compute; reflexivity.
  - apply (classifier_tests_generic_hit_first toLowerCaseASCII
             (js "左中間二塁打")); vm_compute; reflexivity.
Defined.

(** C2 on a run of six edits over two players, a blank text and an
    emptied slot among them. *)
Lemma counters_equal_recount_witness :
  let stats :=
    statsAt (runEdits toLowerCaseASCII sampleEdits initialGameState) 0 in
  hits stats = countIf (countsAsHit toLowerCaseASCII) (results stats) /\
  atBats stats = countIf (countsAsAtBat toLowerCaseASCII) (results stats) /\
  walks stats = countIf (countsAsWalk toLowerCaseASCII) (results stats).
Proof.
  apply (counters_equal_recount toLowerCaseASCII sampleEdits
           initialGameState 0).
  reflexivity.
Defined.

(** C3, counterexample. At the bottom of inning 1 stepping back does not
    reach the top of inning 1: the state stays as it is. *)
Lemma retreat_first_inning_bottom_stays :
  retreat firstInningBottom = firstInningBottom /\
  isTopHalf (retreat firstInningBottom) = false /\
  retreat firstInningBottom <>
    {| inning := 1; isTopHalf := true; currentBatterIndex := 0;
       battingStats := ∅ |}.
Proof. repeat split. discriminate. Qed.

(** C3 at the bottom of inning 3 and at the top of inning 1. *)
Lemma retreat_transitions_witness :
  retreat thirdInningBottom =
    {| inning := 3; isTopHalf := true; currentBatterIndex := 0;
       battingStats := ∅ |} /\
  retreat initialGameState = initialGameState.
Proof.
  split.
  - apply (retreat_transitions thirdInningBottom); [reflexivity | simpl; lia].
  - apply (retreat_transitions initialGameState). simpl. lia.
Defined.

(** C5 with the lower-casing of A-Z, on the initial game state. *)
Lemma counter_delta_rule_witness :
  statsAt
    (runEdits toLowerCaseASCII
       [(0, 0, js "三振"); (0, 1, js "左安"); (0, 2, js ""); (0, 3, js "")]%nat
       initialGameState) 0
  = {| hits := 1; atBats := 2; walks := 0;
       results := [Some (js "三振"); Some (js "左安");
                   Some (js ""); Some (js "")] |}.
Proof.
  destruct (counter_delta_rule toLowerCaseASCII)
    as (_ & _ & _ & _ & _ & _ & H); [vm_compute; reflexivity ..|].
  apply (H initialGameState 0%nat). reflexivity.
Defined.

(** C6: the middle one of three players is deleted. *)
Lemma deletePlayer_rekeys_witness :
  exists st',
    deletePlayer true 1 sampleState = Some st' /\
    players st' = [samplePlayer "山田" "投"; samplePlayer "佐藤" "一"] /\
    battingStats (gameState st') !! 0%nat = sampleStats !! 0%nat /\
    battingStats (gameState st') !! 1%nat = sampleStats !! 2%nat.
Proof.
  destruct (deletePlayer_rekeys sampleState 1
              {| name := js "鈴木"; pos := js "捕"; face := js "😊" |})
    as (st' & E & Hp & Hlow & Hhigh & _); [vm_compute; reflexivity|].
  exists st'. split; [exact E|]. split; [exact Hp|].
  split; [apply Hlow; lia | apply (Hhigh 2%nat); lia].
Defined.

(** C7: the second player moves up; the first one cannot. *)
Lemma movePlayer_swaps_witness :
  objGet (battingStats (gameState (movePlayer 1 up sampleState))) 1
    = objGet sampleStats 0 /\
  objGet (battingStats (gameState (movePlayer 1 up sampleState))) 0
    = objGet sampleStats 1 /\
  movePlayer 0 up sampleState = sampleState.
Proof.
  split; [|split].
  - apply (movePlayer_swaps sampleState 1 up). simpl. lia.
  - apply (movePlayer_swaps sampleState 1 up). simpl. lia.
  - apply (movePlayer_swaps sampleState 0 up). simpl. lia.
Defined.

(** C8 on the sample dictionary: 2 hits, 3 at-bats, 1 walk. *)
Lemma getTeamStats_rates_witness :
  getTeamStats (gameState sampleState)
  = Some {| totalHits := 2; totalAtBats := 3; totalWalks := 1;
            avg := js "0.667"; obp := js "0.750" |}.
Proof.
  destruct (getTeamStats_rates (gameState sampleState)) as [E _].
  - apply (bool_decide_unpack (wellFormed _)). vm_compute. exact I.
  - rewrite E. vm_compute. reflexivity.
Defined.

(** C9 with a name of two spaces. *)
Lemma addPlayer_blank_name_aborts_witness :
  addPlayer sampleState
  = (sampleState, [Alert (js "選手名を入力してください")]).
Proof.
  apply (addPlayer_blank_name_aborts sampleState). vm_compute. reflexivity.
Defined.

(** C10: an edit of player 0 read at key 1. *)
Lemma updateBattingResult_frame_witness :
  battingStats
    (updateBattingResult toLowerCaseASCII 0 2 (js "右安")
       (gameState sampleState)) !! 1%nat
  = sampleStats !! 1%nat.
Proof.
  apply (updateBattingResult_frame toLowerCaseASCII 0 2 (js "右安")
           (gameState sampleState)).
  lia.
Defined.

(** * Further properties of the handlers *)

(** ** Arrays: length and contents after a write *)

Lemma array_set_length {A} (a : list (option A)) i v :
  length (JsArray.set a i v) = Nat.max (length a) (S i).
Proof.
  unfold JsArray.set. destruct (Nat.ltb_spec i (length a)).
  - rewrite length_insert. lia.
  - rewrite !length_app, length_replicate. simpl. lia.
Qed.

Lemma array_set_lookup {A} (a : list (option A)) i v k :
  JsArray.set a i v !! k =
  if decide (k = i) then Some v
  else if decide (k < length a)%nat then a !! k
  else if decide (k < i)%nat then Some None
  else None.
Proof.
  unfold JsArray.set. destruct (Nat.ltb_spec i (length a)) as [Hlt|Hge].
  - destruct (decide (k = i)) as [->|Hne].
    + by rewrite list_lookup_insert_eq.
    + rewrite list_lookup_insert_ne by done.
      destruct (decide (k < length a)%nat); [done|].
      rewrite lookup_ge_None_2 by lia.
      destruct (decide (k < i)%nat); [lia | done].
  - destruct (decide (k = i)) as [->|Hne].
    + rewrite lookup_app_r by lia.
      rewrite lookup_app_r by (rewrite length_replicate; lia).
      by rewrite length_replicate, Nat.sub_diag.
    + destruct (decide (k < length a)%nat); [by rewrite lookup_app_l|].
      rewrite lookup_app_r by lia.
      destruct (decide (k < i)%nat).
      * rewrite lookup_app_l by (rewrite length_replicate; lia).
        by rewrite lookup_replicate_2 by lia.
      * rewrite lookup_app_r by (rewrite length_replicate; lia).
        rewrite length_replicate. apply lookup_ge_None_2. simpl. lia.
Qed.

Lemma array_set_overwrite {A} (a : list (option A)) i v w :
  JsArray.set (JsArray.set a i v) i w = JsArray.set a i w.
Proof.
  apply list_eq. intros k. rewrite !array_set_lookup, array_set_length.
  repeat case_decide; try done; lia.
Qed.

Lemma array_set_commute {A} (a : list (option A)) i j v w :
  i <> j ->
  JsArray.set (JsArray.set a i v) j w = JsArray.set (JsArray.set a j w) i v.
Proof.
  intros Hij. apply list_eq. intros k.
  rewrite !array_set_lookup, !array_set_length.
  repeat case_decide; try done; try lia.
Qed.

(** ** Laws of the ledger *)

Lemma countIf_le P Q rs :
  (forall r, b2z (P r) <= b2z (Q r)) -> countIf P rs <= countIf Q rs.
Proof.
  intros H. induction rs as [|r rs IH]; [done|].
  rewrite !countIf_cons. specialize (H r). lia.
Qed.

Lemma countIf_exclusive P Q rs :
  (forall r, b2z (P r) + b2z (Q r) <= 1) ->
  countIf P rs + countIf Q rs <= Z.of_nat (length rs).
Proof.
  intros H. induction rs as [|r rs IH]; [done|].
  rewrite !countIf_cons. specialize (H r). cbn [length]. lia.
Qed.

(** A tag that counts as a hit counts as an at-bat, and a tag that counts
    as a walk does not. *)
Lemma tag_exclusive c :
  b2z (arrayIncludes hitResults c)
    <= b2z (truthy c && negb (arrayIncludes nonAtBatResults c)) /\
  b2z (truthy c && negb (arrayIncludes nonAtBatResults c))
    + b2z (arrayIncludes walkResults c) <= 1.
Proof.
  split.
  - destruct (arrayIncludes hitResults c) eqn:Hh; [|by destruct (_ && _)].
    apply arrayIncludes_In in Hh.
    repeat (destruct Hh as [<-|Hh]; [vm_compute; discriminate|]). done.
  - destruct (arrayIncludes walkResults c) eqn:Hw;
      [|destruct (_ && _); cbn; lia].
    apply arrayIncludes_In in Hw.
    repeat (destruct Hw as [<-|Hw]; [vm_compute; discriminate|]). done.
Qed.

Section LedgerLaws.

Variable toLowerCase : jsstring -> jsstring.

Lemma consistent_bounds stats :
  consistent toLowerCase stats ->
  0 <= hits stats <= atBats stats /\
  0 <= walks stats /\
  atBats stats + walks stats <= Z.of_nat (length (results stats)).
Proof.
  intros (-> & -> & ->). repeat split.
  - apply countIf_nonneg.
  - apply countIf_le. intros r. apply tag_exclusive.
  - apply countIf_nonneg.
  - apply countIf_exclusive. intros r. apply tag_exclusive.
Qed.

Lemma runEdits_slots edits g p slots :
  (length (results (statsAt g p)) <= slots)%nat ->
  Forall (fun e => (e.1.2 < slots)%nat) edits ->
  (length (results (statsAt (runEdits toLowerCase edits g) p)) <= slots)%nat.
Proof.
  revert g. induction edits as [|[[q i] r] edits IH]; intros g Hg Hall; [done|].
  apply Forall_cons_1 in Hall as [Hi Hall]. cbn [fst snd] in Hi.
  apply IH; [|done]. cbn [fst snd].
  destruct (decide (p = q)) as [->|Hne].
  - rewrite statsAt_update_eq, applyResult_results, array_set_length. lia.
  - by rewrite statsAt_update_ne.
Qed.

(** Whatever is typed into the slots of a fresh player, hits never exceed
    at-bats, no counter is negative, and at-bats and walks together never
    exceed the number of slots in use. *)
Theorem hits_never_exceed_at_bats edits g playerIndex slots :
  statsAt g playerIndex = emptyStats ->
  Forall (fun e => (e.1.2 < slots)%nat) edits ->
  let stats := statsAt (runEdits toLowerCase edits g) playerIndex in
  0 <= hits stats <= atBats stats /\
  0 <= walks stats /\
  atBats stats + walks stats <= Z.of_nat slots.
Proof.
  intros H0 Hall stats.
  assert (Hc : consistent toLowerCase stats).
  { apply runEdits_consistent. rewrite H0. by repeat split. }
  assert (Hl : (length (results stats) <= slots)%nat).
  { apply runEdits_slots; [|done]. rewrite H0. cbn. lia. }
  destruct (consistent_bounds stats Hc) as (? & ? & ?). lia.
Qed.

(** On a stats object whose counters match its results, a second edit of
    a slot makes the first one as if it had not been: the last text
    wins. *)
Lemma applyResult_overwrite stats atBatIndex r1 r2 :
  consistent toLowerCase stats ->
  applyResult toLowerCase (applyResult toLowerCase stats atBatIndex r1)
    atBatIndex r2
  = applyResult toLowerCase stats atBatIndex r2.
Proof.
  intros Hc.
  pose proof (applyResult_consistent toLowerCase _ atBatIndex r2
                (applyResult_consistent toLowerCase _ atBatIndex r1 Hc))
    as (Hh1 & Ha1 & Hw1).
  pose proof (applyResult_consistent toLowerCase _ atBatIndex r2 Hc)
    as (Hh2 & Ha2 & Hw2).
  assert (Hr : results (applyResult toLowerCase
                 (applyResult toLowerCase stats atBatIndex r1) atBatIndex r2)
               = results (applyResult toLowerCase stats atBatIndex r2)).
  { rewrite !applyResult_results. apply array_set_overwrite. }
  apply stats_ext; [| | |exact Hr]; congruence.
Qed.

Lemma applyResult_commute stats i j a b :
  consistent toLowerCase stats -> i <> j ->
  applyResult toLowerCase (applyResult toLowerCase stats i a) j b
  = applyResult toLowerCase (applyResult toLowerCase stats j b) i a.
Proof.
  intros Hc Hij.
  pose proof (applyResult_consistent toLowerCase _ j b
                (applyResult_consistent toLowerCase _ i a Hc))
    as (Hh1 & Ha1 & Hw1).
  pose proof (applyResult_consistent toLowerCase _ i a
                (applyResult_consistent toLowerCase _ j b Hc))
    as (Hh2 & Ha2 & Hw2).
  assert (Hr : results (applyResult toLowerCase
                 (applyResult toLowerCase stats i a) j b)
               = results (applyResult toLowerCase
                 (applyResult toLowerCase stats j b) i a)).
  { rewrite !applyResult_results. by apply array_set_commute. }
  apply stats_ext; [| | |exact Hr]; congruence.
Qed.

(** Same slot, two texts in a row: the state is the one the second text
    alone gives. *)
Theorem last_text_wins playerIndex atBatIndex r1 r2 g :
  consistent toLowerCase (statsAt g playerIndex) ->
  updateBattingResult toLowerCase playerIndex atBatIndex r2
    (updateBattingResult toLowerCase playerIndex atBatIndex r1 g)
  = updateBattingResult toLowerCase playerIndex atBatIndex r2 g.
Proof.
  intros Hc.
  rewrite (updateBattingResult_eq toLowerCase _ _ r2
             (updateBattingResult toLowerCase playerIndex atBatIndex r1 g)).
  rewrite statsAt_update_eq, applyResult_overwrite by done.
  rewrite !updateBattingResult_eq.
  unfold withBattingStats.
  cbn [inning isTopHalf currentBatterIndex battingStats].
  by rewrite insert_insert_eq.
Qed.

(** Typing a text into an empty slot and deleting it again gives back
    the three counters. *)
Theorem type_then_clear_restores playerIndex atBatIndex text g :
  consistent toLowerCase (statsAt g playerIndex) ->
  classOf toLowerCase
    (JsArray.get (results (statsAt g playerIndex)) atBatIndex) = js "" ->
  let cleared :=
    updateBattingResult toLowerCase playerIndex atBatIndex (js "")
      (updateBattingResult toLowerCase playerIndex atBatIndex text g) in
  hits (statsAt cleared playerIndex) = hits (statsAt g playerIndex) /\
  atBats (statsAt cleared playerIndex) = atBats (statsAt g playerIndex) /\
  walks (statsAt cleared playerIndex) = walks (statsAt g playerIndex).
Proof.
  intros Hc Hempty cleared. subst cleared.
  rewrite !statsAt_update_eq, applyResult_overwrite by done.
  rewrite (applyResult_classified toLowerCase _ _ _ (js "") (js ""))
    by (done || by apply normalizeResult_blank).
  destruct (consistent_bounds _ Hc) as (? & ? & ?).
  cbn [hits atBats walks].
  change (arrayIncludes hitResults (js "")) with false.
  change (arrayIncludes walkResults (js "")) with false.
  change (truthy (js "")) with false. cbn [andb b2z]. lia.
Qed.

(** Edits of two different slots of one player can be made in either
    order. *)
Theorem edits_of_two_slots_commute playerIndex i j a b g :
  consistent toLowerCase (statsAt g playerIndex) -> i <> j ->
  updateBattingResult toLowerCase playerIndex j b
    (updateBattingResult toLowerCase playerIndex i a g)
  = updateBattingResult toLowerCase playerIndex i a
      (updateBattingResult toLowerCase playerIndex j b g).
Proof.
  intros Hc Hij.
  rewrite (updateBattingResult_eq toLowerCase _ j b
             (updateBattingResult toLowerCase playerIndex i a g)).
  rewrite (updateBattingResult_eq toLowerCase _ i a
             (updateBattingResult toLowerCase playerIndex j b g)).
  rewrite !statsAt_update_eq, (applyResult_commute _ i j) by done.
  rewrite !updateBattingResult_eq. unfold withBattingStats.
  cbn [inning isTopHalf currentBatterIndex battingStats].
  by rewrite !insert_insert_eq.
Qed.

(** Edits of two different players can be made in either order,
    whatever the state. *)
Theorem edits_of_two_players_commute p q i j a b g :
  p <> q ->
  updateBattingResult toLowerCase q j b
    (updateBattingResult toLowerCase p i a g)
  = updateBattingResult toLowerCase p i a
      (updateBattingResult toLowerCase q j b g).
Proof.
  intros Hpq.
  rewrite (updateBattingResult_eq toLowerCase q j b
             (updateBattingResult toLowerCase p i a g)).
  rewrite (updateBattingResult_eq toLowerCase p i a
             (updateBattingResult toLowerCase q j b g)).
  rewrite !statsAt_update_ne by done.
  rewrite !updateBattingResult_eq. unfold withBattingStats.
  cbn [inning isTopHalf currentBatterIndex battingStats].
  by rewrite insert_insert_ne.
Qed.

End LedgerLaws.

(** ** The inning cursor over several steps *)

Lemma advance_retreat g : 1 < inning g -> advance (retreat g) = g.
Proof.
  intros H. destruct g as [n top b stats]. cbn in H.
  unfold retreat, advance. cbn [isTopHalf inning].
  destruct (Z.gtb_spec n 1); [|lia].
  destruct top; cbn; f_equal; lia.
Qed.

(** The two buttons undo each other, except that the step back from the
    bottom of inning 1 is refused: 次へ then 前へ returns to the state left
    unless that state was the top of inning 1, and 前へ then 次へ returns
    to it from inning 2 on. *)
Theorem inning_buttons_round_trip g :
  (1 <= inning g -> (isTopHalf g = true -> 1 < inning g) ->
     retreat (advance g) = g) /\
  (1 < inning g -> advance (retreat g) = g).
Proof. split; [apply retreat_advance | apply advance_retreat]. Qed.

Lemma half_step m :
  ((m mod 2 = 0 -> (m + 1) / 2 = m / 2 /\ (m + 1) mod 2 = 1) /\
   (m mod 2 <> 0 -> (m + 1) / 2 = m / 2 + 1 /\ (m + 1) mod 2 = 0))%nat.
Proof.
  pose proof (Nat.div_mod_eq m 2). pose proof (Nat.div_mod_eq (m + 1) 2).
  pose proof (Nat.mod_upper_bound m 2).
  pose proof (Nat.mod_upper_bound (m + 1) 2). lia.
Qed.

(** [n] presses of 次へ: the inning grows by one every second press, the
    half alternates, and nothing else changes. *)
Theorem advance_iterated n g :
  let h := if isTopHalf g then 0%nat else 1%nat in
  let g' := Nat.iter n advance g in
  inning g' = inning g + Z.of_nat ((n + h) / 2) /\
  isTopHalf g' = ((n + h) mod 2 =? 0)%nat /\
  currentBatterIndex g' = currentBatterIndex g /\
  battingStats g' = battingStats g.
Proof.
  intros h g'. subst g'. induction n as [|n (Hi & Ht & Hb & Hs)].
  - subst h. destruct g as [k [] b s]; cbn; repeat split; lia.
  - rewrite Nat.iter_succ.
    destruct (Nat.iter n advance g) as [k top b s].
    cbn [inning isTopHalf currentBatterIndex battingStats] in *.
    replace (S n + h)%nat with (n + h + 1)%nat by lia.
    pose proof (half_step (n + h)) as [Heven Hodd].
    unfold advance. cbn [isTopHalf]. subst top.
    destruct (Nat.eqb_spec ((n + h) mod 2) 0) as [He|Ho];
      cbn [inning isTopHalf currentBatterIndex battingStats].
    + destruct (Heven He) as [-> ->]. by repeat split.
    + destruct (Hodd Ho) as [-> ->]. repeat split; try done. lia.
Qed.

(** ** Team totals: sums, and the keys that hold [undefined] *)

Lemma total_insert_any f (b : gmap nat (option BattingStats)) k v :
  b !! k = None -> total f (<[k := v]> b) = from_option f 0 v + total f b.
Proof.
  intros Hk. unfold total.
  rewrite (sum_permutation _
    (map (fun kv => from_option f 0 kv.2) ((k, v) :: map_to_list b))).
  - done.
  - apply Permutation_map, map_to_list_insert, Hk.
Qed.

Lemma total_delete f (b : gmap nat (option BattingStats)) k :
  total f b = entryVal f (b !! k) + total f (delete k b).
Proof.
  destruct (b !! k) as [v|] eqn:Hk.
  - rewrite <- (insert_delete_id b k v Hk) at 1.
    rewrite total_insert_any by apply lookup_delete_eq. done.
  - rewrite delete_id by done. cbn. lia.
Qed.

Lemma total_zero f (b : gmap nat (option BattingStats)) :
  (forall k v, b !! k = Some v -> from_option f 0 v = 0) -> total f b = 0.
Proof.
  intros H. unfold total.
  assert (Hall : Forall (fun kv => from_option f 0 kv.2 = 0) (map_to_list b)).
  { apply Forall_forall. intros [k v] Hin.
    apply elem_of_map_to_list in Hin. by apply (H k). }
  induction Hall as [|kv l Hkv _ IH]; cbn; lia.
Qed.




Lemma foldl_addStats_none vs : foldl addStats None vs = None.
Proof. induction vs as [|v vs IH]; [done|]. cbn. exact IH. Qed.

Lemma foldl_addStats_none_iff vs acc :
  foldl addStats (Some acc) vs = None <-> In None vs.
Proof.
  revert acc. induction vs as [|v vs IH]; intros [[h a] w]; [by cbn|].
  cbn [foldl addStats In]. destruct v as [s|].
  - rewrite IH. split; [by right | by intros [|]].
  - rewrite foldl_addStats_none. split; [by left | done].
Qed.

Lemma values_undefined_iff (b : gmap nat (option BattingStats)) :
  In None (map snd (map_to_list b)) <-> exists k, b !! k = Some None.
Proof.
  rewrite in_map_iff. split.
  - intros ([k v] & Hv & Hin). cbn in Hv. subst v.
    exists k. by apply elem_of_map_to_list, list_elem_of_In.
  - intros (k & Hk). exists (k, None). split; [done|].
    by apply list_elem_of_In, elem_of_map_to_list.
Qed.

(** The aggregator on a dictionary without [undefined]: the sums and the
    two rates, with the tests as the code has them. *)
Lemma getTeamStats_defined g :
  (forall k, battingStats g !! k <> Some None) ->
  getTeamStats g =
  let H := total hits (battingStats g) in
  let A := total atBats (battingStats g) in
  let W := total walks (battingStats g) in
  Some {| totalHits := H; totalAtBats := A; totalWalks := W;
          avg := if A >? 0 then toFixed 3 (div (ofZ H) (ofZ A)) else sentinel;
          obp := if A + W >? 0
                 then toFixed 3 (div (ofZ (H + W)) (ofZ (A + W)))
                 else sentinel |}.
Proof.
  intros Hdef. unfold getTeamStats.
  assert (Hall : Forall is_Some (map snd (map_to_list (battingStats g)))).
  { apply Forall_forall. intros v Hv. apply list_elem_of_In in Hv.
    destruct v as [s|]; [by exists s|].
    apply values_undefined_iff in Hv as (k & Hk). by destruct (Hdef k). }
  rewrite (foldl_addStats _ 0 0 0 Hall).
  by rewrite !Z.add_0_l, <- !total_values.
Qed.

Lemma foldl_addStats_none_iff_game g :
  (exists k, battingStats g !! k = Some None) -> getTeamStats g = None.
Proof.
  intros Hk. apply values_undefined_iff in Hk.
  apply (foldl_addStats_none_iff _ (0, 0, 0)) in Hk.
  unfold getTeamStats. by rewrite Hk.
Qed.

(** [getTeamStats] ends in a TypeError exactly when some key of the
    dictionary holds [undefined]. *)
Theorem getTeamStats_throws_iff g :
  getTeamStats g = None <-> exists k, battingStats g !! k = Some None.
Proof.
  rewrite <- values_undefined_iff, <- (foldl_addStats_none_iff _ (0, 0, 0)).
  unfold getTeamStats.
  destruct (foldl addStats _ _) as [[[h a] w]|]; [split; discriminate|done].
Qed.

(** A swap with a position that has no stats entry writes [undefined]
    under a key, and the aggregator throws from then on. *)
Theorem movePlayer_missing_entry_breaks_totals st index direction :
  let newIndex :=
    match direction with
    | up => Z.of_nat index - 1
    | down => Z.of_nat index + 1
    end in
  let b := battingStats (gameState st) in
  0 <= newIndex < Z.of_nat (length (players st)) ->
  objGet b index = None \/ objGet b (Z.to_nat newIndex) = None ->
  getTeamStats (gameState (movePlayer index direction st)) = None.
Proof.
  intros newIndex b Hguard Hmiss.
  assert (Hne : index <> Z.to_nat newIndex)
    by (subst newIndex; destruct direction; lia).
  apply foldl_addStats_none_iff_game.
  unfold movePlayer. fold newIndex.
  destruct (Z.ltb_spec newIndex 0); [lia|].
  destruct (Z.geb_spec newIndex (Z.of_nat (length (players st)))); [lia|].
  cbn [orb gameState battingStats withBattingStats]. fold b.
  destruct Hmiss as [Hm|Hm]; rewrite Hm.
  - exists (Z.to_nat newIndex). by rewrite lookup_insert_eq.
  - exists index. rewrite lookup_insert_ne by done.
    by rewrite lookup_insert_eq.
Qed.

(** ** Roster operations and the team totals *)

Lemma rekeyStep_lookup {A} index i (x : A) (m r : gmap nat A) :
  m !! i = None ->
  (forall k, r !! k = if (k <? index)%nat then m !! k else m !! S k) ->
  forall k, rekeyStep index i x r !! k
            = if (k <? index)%nat then <[i := x]> m !! k
              else <[i := x]> m !! S k.
Proof.
  intros Hi IH k. unfold rekeyStep.
  destruct (Nat.ltb_spec i index) as [Hlt | Hge].
  - destruct (decide (k = i)) as [->|Hne].
    + rewrite lookup_insert_eq.
      destruct (Nat.ltb_spec i index); [|lia]. by rewrite lookup_insert_eq.
    + rewrite lookup_insert_ne, IH by done.
      destruct (Nat.ltb_spec k index); rewrite lookup_insert_ne; done || lia.
  - destruct (Nat.ltb_spec index i) as [Hlt | Heq].
    + destruct (decide (k = i - 1)%nat) as [->|Hne].
      * rewrite lookup_insert_eq.
        destruct (Nat.ltb_spec (i - 1) index); [lia|].
        replace (S (i - 1)) with i by lia. by rewrite lookup_insert_eq.
      * rewrite lookup_insert_ne, IH by done.
        destruct (Nat.ltb_spec k index); rewrite lookup_insert_ne; done || lia.
    + rewrite IH.
      destruct (Nat.ltb_spec k index); rewrite lookup_insert_ne; done || lia.
Qed.

(** Re-keying drops the contribution of the deleted key and keeps every
    other one. *)
Lemma rekey_total f index (b : gmap nat (option BattingStats)) :
  total f (map_fold (rekeyStep index) ∅ b)
  = total f b - entryVal f (b !! index).
Proof.
  cut ((forall k, map_fold (rekeyStep index) ∅ b !! k
                  = if (k <? index)%nat then b !! k else b !! S k) /\
       total f (map_fold (rekeyStep index) ∅ b)
       = total f b - entryVal f (b !! index)); [by intros [_ ?]|].
  apply (map_fold_weak_ind
    (fun r m =>
       (forall k, r !! k = if (k <? index)%nat then m !! k else m !! S k) /\
       total f r = total f m - entryVal f (m !! index))).
  - split.
    + intros k. rewrite !lookup_empty. by destruct (k <? index)%nat.
    + rewrite lookup_empty. cbn. lia.
  - intros i x m r Hi [IHl IHt]. split.
    + by apply rekeyStep_lookup.
    + rewrite (total_insert_any f m i x Hi). unfold rekeyStep.
      destruct (Nat.ltb_spec i index) as [Hlt | Hge].
      * rewrite total_insert_any, lookup_insert_ne by
          (lia || (rewrite IHl; by destruct (Nat.ltb_spec i index); [|lia])).
        lia.
      * destruct (Nat.ltb_spec index i) as [Hlt | Heq].
        -- rewrite total_insert_any, lookup_insert_ne; [lia | lia |].
           rewrite IHl. destruct (Nat.ltb_spec (i - 1) index); [lia|].
           by replace (S (i - 1)) with i by lia.
        -- assert (i = index) as -> by lia.
           rewrite lookup_insert_eq, IHt, Hi. cbn. lia.
Qed.

(** Deleting a player takes exactly that player's counters out of the
    team sums, and the list gets one shorter. *)
Theorem deletePlayer_totals st index player :
  JsArray.get (players st) index = Some player ->
  exists st',
    deletePlayer true index st = Some st' /\
    S (length (players st')) = length (players st) /\
    let b := battingStats (gameState st) in
    let b' := battingStats (gameState st') in
    total hits b' = total hits b - hits (statsAt (gameState st) index) /\
    total atBats b' = total atBats b - atBats (statsAt (gameState st) index) /\
    total walks b' = total walks b - walks (statsAt (gameState st) index).
Proof.
  intros Hp. unfold deletePlayer. rewrite Hp. eexists. split; [done|].
  cbn [players gameState withBattingStats battingStats].
  split.
  - pose proof (filterIndex_delete (players st) 0 index) as E.
    change (0 + index)%nat with index in E.
    assert (Hs : is_Some (players st !! index)).
    { unfold JsArray.get in Hp.
      destruct (players st !! index) as [x|] eqn:Hx; [by exists x|done]. }
    rewrite E, length_delete by done.
    apply lookup_lt_is_Some in Hs. lia.
  - cbv zeta. rewrite !rekey_total. unfold statsAt, objGet, entryVal.
    by destruct (battingStats (gameState st) !! index) as [[s|]|].
Qed.

Lemma total_swap f (b : gmap nat (option BattingStats)) i j :
  i <> j ->
  total f (<[j := objGet b i]> (<[i := objGet b j]> b))
  = entryVal f (b !! i) + entryVal f (b !! j)
    + total f (delete j (delete i b)).
Proof.
  intros Hij.
  rewrite (total_delete f _ j), lookup_insert_eq.
  rewrite delete_insert_eq, delete_insert_ne by done.
  rewrite (total_delete f _ i), lookup_insert_eq, delete_insert_eq.
  rewrite (delete_delete b j i).
  unfold objGet, entryVal.
  destruct (b !! i) as [[s|]|], (b !! j) as [[s'|]|]; cbn; lia.
Qed.

Lemma total_unswapped f (b : gmap nat (option BattingStats)) i j :
  i <> j ->
  total f b
  = entryVal f (b !! i) + entryVal f (b !! j)
    + total f (delete j (delete i b)).
Proof.
  intros Hij. rewrite (total_delete f b i), (total_delete f (delete i b) j).
  rewrite lookup_delete_ne by done. lia.
Qed.

(** Reordering the line-up does not change what the aggregator returns,
    as long as both positions have a stats entry. *)
Theorem movePlayer_keeps_team_stats st index direction :
  let newIndex :=
    match direction with
    | up => Z.of_nat index - 1
    | down => Z.of_nat index + 1
    end in
  let b := battingStats (gameState st) in
  is_Some (objGet b index) ->
  (0 <= newIndex < Z.of_nat (length (players st)) ->
   is_Some (objGet b (Z.to_nat newIndex))) ->
  getTeamStats (gameState (movePlayer index direction st))
  = getTeamStats (gameState st).
Proof.
  intros newIndex b [s1 H1] H2. unfold movePlayer. fold newIndex.
  destruct (Z.ltb_spec newIndex 0); [done|].
  destruct (Z.geb_spec newIndex (Z.of_nat (length (players st)))); [done|].
  destruct H2 as [s2 H2]; [lia|].
  cbn [orb gameState battingStats withBattingStats]. fold b.
  set (j := Z.to_nat newIndex) in *.
  assert (Hij : index <> j) by (subst j newIndex; destruct direction; lia).
  set (b' := <[j := objGet b index]> (<[index := objGet b j]> b)).
  assert (Hu : (exists k, b' !! k = Some None) <-> (exists k, b !! k = Some None)).
  { assert (Hb1 : b !! index = Some (Some s1)).
    { unfold objGet in H1. by destruct (b !! index) as [[?|]|]; simplify_eq/=. }
    assert (Hb2 : b !! j = Some (Some s2)).
    { unfold objGet in H2. by destruct (b !! j) as [[?|]|]; simplify_eq/=. }
    split; intros (k & Hk); exists k.
    - subst b'. rewrite H1, H2 in Hk.
      destruct (decide (k = j)) as [->|?];
        [by rewrite lookup_insert_eq in Hk|].
      rewrite lookup_insert_ne in Hk by done.
      destruct (decide (k = index)) as [->|?];
        [by rewrite lookup_insert_eq in Hk|].
      by rewrite lookup_insert_ne in Hk.
    - subst b'. rewrite H1, H2.
      destruct (decide (k = j)) as [->|?]; [congruence|].
      rewrite lookup_insert_ne by done.
      destruct (decide (k = index)) as [->|?]; [congruence|].
      by rewrite lookup_insert_ne. }
  destruct (getTeamStats (gameState st)) as [ts|] eqn:Hts.
  - assert (Hd : forall k, b !! k <> Some None).
    { intros k Hk.
      assert (getTeamStats (gameState st) = None)
        by (apply foldl_addStats_none_iff_game; eauto).
      congruence. }
    assert (Hd' : forall k, b' !! k <> Some None).
    { intros k Hk. destruct (proj1 Hu (ex_intro _ k Hk)) as (k' & Hk').
      by destruct (Hd k'). }
    rewrite <- Hts.
    rewrite (getTeamStats_defined (withBattingStats (gameState st) b')) by done.
    rewrite (getTeamStats_defined (gameState st)) by done.
    cbn [battingStats withBattingStats]. fold b. subst b'.
    by rewrite !total_swap, <- !total_unswapped by done.
  - apply foldl_addStats_none_iff_game. cbn [battingStats withBattingStats].
    apply Hu.
    assert (Hn : getTeamStats (gameState st) = None) by done.
    unfold getTeamStats in Hn.
    destruct (foldl addStats (Some (0, 0, 0))
                (map snd (map_to_list (battingStats (gameState st)))))
      as [[[h a] w]|] eqn:Hf; [done|].
    by apply foldl_addStats_none_iff, values_undefined_iff in Hf.
Qed.

(** ** Trimmed names *)

Lemma trimStart_length s : (length (trimStart s) <= length s)%nat.
Proof.
  induction s as [|c s IH]; [done|]. cbn [trimStart].
  destruct (isWhiteSpace c); cbn [length]; lia.
Qed.

Lemma trimStart_fixed_iff s :
  trimStart s = s <->
  match s with [] => True | c :: _ => isWhiteSpace c = false end.
Proof.
  destruct s as [|c s]; [done|]. cbn [trimStart].
  destruct (isWhiteSpace c) eqn:Hc; [|done]. split; [|done].
  intros E. pose proof (trimStart_length s) as Hl.
  rewrite E in Hl. cbn [length] in Hl. lia.
Qed.

Lemma trimStart_idem s : trimStart (trimStart s) = trimStart s.
Proof.
  induction s as [|c s IH]; [done|]. cbn [trimStart].
  destruct (isWhiteSpace c) eqn:Hc; [done|]. cbn [trimStart]. by rewrite Hc.
Qed.

(** What [trimStart] removes is a run of white space at the front. *)
Lemma trimStart_split s :
  exists ws, s = ws ++ trimStart s /\ forallb isWhiteSpace ws = true.
Proof.
  induction s as [|c s (ws & E & Hws)]; [by exists []|].
  cbn [trimStart]. destruct (isWhiteSpace c) eqn:Hc.
  - exists (c :: ws). split; [by rewrite E at 1|]. cbn. by rewrite Hc.
  - by exists [].
Qed.

Lemma trimEnd_split s :
  exists ws, s = trimEnd s ++ ws /\ forallb isWhiteSpace ws = true.
Proof.
  destruct (trimStart_split (rev s)) as (ws & E & Hws).
  exists (rev ws). split.
  - unfold trimEnd. rewrite <- rev_app_distr, <- E. by rewrite rev_involutive.
  - rewrite forallb_forall in *. intros x Hx. apply Hws. by apply in_rev.
Qed.

Lemma trimEnd_idem s : trimEnd (trimEnd s) = trimEnd s.
Proof. unfold trimEnd. by rewrite rev_involutive, trimStart_idem. Qed.

(** Trimming a trimmed string changes nothing. *)
Lemma trim_idem s : trim (trim s) = trim s.
Proof.
  unfold trim. set (t := trimStart s).
  assert (Ht : trimStart t = t) by apply trimStart_idem.
  assert (Hp : trimStart (trimEnd t) = trimEnd t).
  { apply trimStart_fixed_iff. destruct (trimEnd_split t) as (ws & E & _).
    destruct (trimEnd t) as [|c r]; [done|].
    apply trimStart_fixed_iff in Ht. rewrite E in Ht. exact Ht. }
  by rewrite Hp, trimEnd_idem.
Qed.

(** ** Adding, deleting and moving players *)

(** With a name that is not blank, [addPlayer] appends one player whose
    name is the trimmed input (not empty, and trimming it again changes
    nothing), with the selected position; the new player's index is the
    key of a fresh zero stats entry, every other key keeps its value, the
    name input is emptied, and no alert is raised. *)
Theorem addPlayer_appends st :
  trim (playerName st) <> [] ->
  exists p,
    addPlayer st
    = ({| players := players st ++ [Some p];
          gameState :=
            withBattingStats (gameState st)
              (<[length (players st) := Some emptyStats]>
                 (battingStats (gameState st)));
          playerName := [];
          playerPos := playerPos st |}, []) /\
    name p = trim (playerName st) /\ name p <> [] /\ trim (name p) = name p /\
    pos p = playerPos st /\
    JsArray.get (players (addPlayer st).1) (length (players st)) = Some p /\
    statsAt (gameState (addPlayer st).1) (length (players st)) = emptyStats.
Proof.
  intros Hn.
  exists {| name := trim (playerName st); pos := playerPos st;
            face := js "😊" |}.
  assert (Ht : truthy (trim (playerName st)) = true)
    by by apply truthy_true_iff.
  assert (E : addPlayer st
    = ({| players := players st ++
             [Some {| name := trim (playerName st); pos := playerPos st;
                      face := js "😊" |}];
          gameState :=
            withBattingStats (gameState st)
              (<[length (players st) := Some emptyStats]>
                 (battingStats (gameState st)));
          playerName := [];
          playerPos := playerPos st |}, [])).
  { unfold addPlayer. rewrite Ht. cbn [negb]. rewrite length_app.
    cbn [length].
    by replace (length (players st) + 1 - 1)%nat
      with (length (players st)) by lia. }
  rewrite E. cbn [fst players gameState name pos].
  repeat split; try done.
  - apply trim_idem.
  - unfold JsArray.get. rewrite lookup_app_r by lia.
    by rewrite Nat.sub_diag.
  - unfold statsAt. cbn [battingStats withBattingStats].
    by rewrite objGet_insert_eq.
Qed.

(** Adding a player and deleting that player again gives back the list
    and the dictionary, when the dictionary had no key at or above the
    length of the list; only the name input stays emptied. *)
Theorem add_then_delete st :
  trim (playerName st) <> [] ->
  (forall k, (length (players st) <= k)%nat ->
     battingStats (gameState st) !! k = None) ->
  deletePlayer true (length (players st)) (addPlayer st).1
  = Some {| players := players st; gameState := gameState st;
            playerName := []; playerPos := playerPos st |}.
Proof.
  intros Hn Hkeys.
  assert (Ht : truthy (trim (playerName st)) = true)
    by by apply truthy_true_iff.
  unfold addPlayer. rewrite Ht. cbn [negb fst]. unfold deletePlayer.
  cbn [players gameState playerName playerPos].
  unfold JsArray.get at 1. rewrite lookup_app_r by lia.
  rewrite Nat.sub_diag. cbn [lookup list_lookup mjoin option_join].
  f_equal. f_equal.
  - pose proof (filterIndex_delete
                  (players st ++
                   [Some {| name := trim (playerName st);
                            pos := playerPos st; face := js "😊" |}])
                  0 (length (players st))) as E.
    change (0 + length (players st))%nat with (length (players st)) in E.
    rewrite E, delete_middle. by rewrite app_nil_r.
  - destruct (gameState st) as [n top b stats]. unfold withBattingStats.
    cbn [inning isTopHalf currentBatterIndex battingStats] in *. f_equal.
    apply map_eq. intros k. rewrite rekey_lookup, length_app. cbn [length].
    replace (length (players st) + 1 - 1)%nat with (length (players st))
      by lia.
    destruct (Nat.ltb_spec k (length (players st))).
    + rewrite lookup_insert_ne by lia. done.
    + rewrite lookup_insert_ne by lia.
      rewrite !Hkeys by lia. done.
Qed.

Lemma array_lookup_get {A} (a : list (option A)) i :
  (i < length a)%nat -> a !! i = Some (JsArray.get a i).
Proof.
  intros Hi. unfold JsArray.get.
  by destruct (lookup_lt_is_Some_2 a i Hi) as [x ->].
Qed.

Lemma array_swap_back {A} (a : list (option A)) i j :
  (i < length a)%nat -> (j < length a)%nat -> i <> j ->
  let a' := JsArray.set (JsArray.set a i (JsArray.get a j)) j (JsArray.get a i) in
  JsArray.set (JsArray.set a' j (JsArray.get a' i)) i (JsArray.get a' j) = a.
Proof.
  intros Hi Hj Hij a'.
  assert (Gi : JsArray.get a' i = JsArray.get a j).
  { subst a'. rewrite array_get_set_ne, array_get_set_eq; done. }
  assert (Gj : JsArray.get a' j = JsArray.get a i).
  { subst a'. by rewrite array_get_set_eq. }
  rewrite Gi, Gj. subst a'. apply list_eq. intros k.
  rewrite !array_set_lookup, !array_set_length.
  repeat case_decide; subst; try lia; try done;
    first [ symmetry; by apply array_lookup_get
          | symmetry; apply lookup_ge_None_2; lia ].
Qed.

(** Moving a player up and then down again restores the list of players
    and every stats entry that is read; it restores the whole state when
    both positions had a stats entry. *)
Theorem move_up_then_down st index :
  (1 <= index < length (players st))%nat ->
  let st' := movePlayer (index - 1) down (movePlayer index up st) in
  players st' = players st /\
  (forall k, objGet (battingStats (gameState st')) k
             = objGet (battingStats (gameState st)) k) /\
  (is_Some (objGet (battingStats (gameState st)) index) ->
   is_Some (objGet (battingStats (gameState st)) (index - 1)) ->
   st' = st).
Proof.
  intros Hi st'. subst st'.
  set (j := (index - 1)%nat).
  assert (Hup : movePlayer index up st =
    {| players := JsArray.set (JsArray.set (players st) index
                                 (JsArray.get (players st) j))
                    j (JsArray.get (players st) index);
       gameState := withBattingStats (gameState st)
         (<[j := objGet (battingStats (gameState st)) index]>
            (<[index := objGet (battingStats (gameState st)) j]>
               (battingStats (gameState st))));
       playerName := playerName st; playerPos := playerPos st |}).
  { unfold movePlayer.
    destruct (Z.ltb_spec (Z.of_nat index - 1) 0); [lia|].
    destruct (Z.geb_spec (Z.of_nat index - 1)
                (Z.of_nat (length (players st)))); [lia|].
    cbn [orb]. replace (Z.to_nat (Z.of_nat index - 1)) with j by lia. done. }
  rewrite Hup. clear Hup.
  set (ps := players st). set (b := battingStats (gameState st)).
  set (ps' := JsArray.set (JsArray.set ps index (JsArray.get ps j)) j
                (JsArray.get ps index)).
  set (b' := <[j := objGet b index]> (<[index := objGet b j]> b)).
  assert (Hlen : length ps' = length ps).
  { subst ps'. rewrite !array_set_length. subst ps j. lia. }
  unfold movePlayer. cbn [players gameState playerName playerPos].
  destruct (Z.ltb_spec (Z.of_nat j + 1) 0); [lia|].
  destruct (Z.geb_spec (Z.of_nat j + 1) (Z.of_nat (length ps')));
    [subst ps j; lia|].
  cbn [orb players gameState withBattingStats battingStats].
  replace (Z.to_nat (Z.of_nat j + 1)) with index by lia.
  assert (Hps : JsArray.set (JsArray.set ps' j (JsArray.get ps' index))
                  index (JsArray.get ps' j) = ps).
  { apply (array_swap_back ps index j); subst ps j; lia. }
  assert (Hb : forall k,
    objGet (<[index := objGet b' j]> (<[j := objGet b' index]> b')) k
    = objGet b k).
  { intros k. subst b'.
    destruct (decide (k = index)) as [->|Hk1].
    - rewrite objGet_insert_eq, objGet_insert_eq. done.
    - rewrite objGet_insert_ne by done.
      destruct (decide (k = j)) as [->|Hk2].
      + rewrite objGet_insert_eq, objGet_insert_ne, objGet_insert_eq;
          [done | subst j; lia].
      + rewrite !objGet_insert_ne by done. done. }
  split; [exact Hps|]. split; [exact Hb|].
  intros [s1 H1] [s2 H2]. rewrite Hps.
  destruct st as [ps0 [n top cb b0] pn pp].
  cbn [players gameState playerName playerPos battingStats inning isTopHalf
       currentBatterIndex withBattingStats] in *.
  f_equal. unfold withBattingStats.
  cbn [inning isTopHalf currentBatterIndex battingStats]. f_equal.
  apply map_eq. intros k. subst b'. fold b.
  assert (Hb1 : b !! index = Some (Some s1)).
  { unfold objGet in H1. by destruct (b !! index) as [[?|]|]; simplify_eq/=. }
  assert (Hb2 : b !! j = Some (Some s2)).
  { unfold objGet in H2. by destruct (b !! j) as [[?|]|]; simplify_eq/=. }
  rewrite H1, H2.
  assert (Hij : index <> j) by (subst j; lia).
  rewrite objGet_insert_eq, objGet_insert_ne, objGet_insert_eq by done.
  destruct (decide (k = index)) as [->|Hk1];
    [by rewrite lookup_insert_eq|].
  rewrite lookup_insert_ne by done.
  destruct (decide (k = j)) as [->|Hk2];
    [by rewrite lookup_insert_eq|].
  by rewrite !lookup_insert_ne by done.
Qed.

(** ** Reset *)

Lemma resetGame_lookup n k :
  foldl (fun acc index => <[index := Some emptyStats]> acc)
        (∅ : gmap nat (option BattingStats)) (seq 0 n) !! k
  = if (k <? n)%nat then Some (Some emptyStats) else None.
Proof.
  induction n as [|n IH].
  - cbn. by rewrite lookup_empty.
  - rewrite seq_S, foldl_app. cbn [foldl Nat.add].
    destruct (decide (k = n)) as [->|Hne].
    + rewrite lookup_insert_eq. by destruct (Nat.ltb_spec n (S n)); [|lia].
    + rewrite lookup_insert_ne, IH by done.
      destruct (Nat.ltb_spec k n), (Nat.ltb_spec k (S n)); done || lia.
Qed.

(** After a confirmed reset every position of the list has a zero stats
    entry with no results, there is no other key, the cursor is at the
    top of inning 1, the players are untouched, and the aggregator shows
    zero totals with no rate. *)
Theorem resetGame_clears st :
  let st' := resetGame true st in
  players st' = players st /\
  (forall k, (k < length (players st))%nat ->
     battingStats (gameState st') !! k = Some (Some emptyStats)) /\
  (forall k, (length (players st) <= k)%nat ->
     battingStats (gameState st') !! k = None) /\
  inning (gameState st') = 1 /\ isTopHalf (gameState st') = true /\
  getTeamStats (gameState st')
  = Some {| totalHits := 0; totalAtBats := 0; totalWalks := 0;
            avg := sentinel; obp := sentinel |}.
Proof.
  intros st'. subst st'. unfold resetGame.
  cbn [players gameState battingStats inning isTopHalf].
  assert (Hz : forall f, f emptyStats = 0 ->
    total f (foldl (fun acc index => <[index := Some emptyStats]> acc)
               (∅ : gmap nat (option BattingStats))
               (seq 0 (length (players st)))) = 0).
  { intros f Hf. apply total_zero. intros k v. rewrite resetGame_lookup.
    destruct (k <? length (players st))%nat; [|done]. by intros [= <-]. }
  repeat split.
  - intros k Hk. rewrite resetGame_lookup.
    by destruct (Nat.ltb_spec k (length (players st))); [|lia].
  - intros k Hk. rewrite resetGame_lookup.
    by destruct (Nat.ltb_spec k (length (players st))); [lia|].
  - rewrite getTeamStats_defined.
    + cbn [battingStats]. by rewrite !Hz.
    + intros k. cbn [battingStats]. rewrite resetGame_lookup.
      by destruct (k <? length (players st))%nat.
Qed.

(** ** The page as a state machine: what every reachable state satisfies *)

Lemma array_get_Forall {A} (a : list (option A)) i :
  Forall is_Some a -> (i < length a)%nat -> is_Some (JsArray.get a i).
Proof.
  intros Hall Hi. destruct (lookup_lt_is_Some_2 a i Hi) as [x Hx].
  unfold JsArray.get. rewrite Hx.
  by apply (proj1 (Forall_lookup _ _) Hall i x).
Qed.

Section UiFacts.

Variable toLowerCase : jsstring -> jsstring.

Lemma aligned_initial : aligned toLowerCase emptyApp.
Proof.
  repeat split; cbn; try done.
  - intros k Hk. lia.
Qed.

Lemma aligned_add st :
  aligned toLowerCase st -> aligned toLowerCase (addPlayer st).1.
Proof.
  intros (Hp & Hin & Hout & Hinn). unfold addPlayer.
  destruct (truthy (trim (playerName st))); cbn [negb fst]; [|by repeat split].
  repeat split; cbn [players gameState battingStats withBattingStats inning].
  - apply Forall_app. split; [done|]. by repeat constructor.
  - intros k. rewrite !length_app. cbn [length].
    replace (length (players st) + 1 - 1)%nat with (length (players st))
      by lia.
    intros Hk. destruct (decide (k = length (players st))) as [->|Hne].
    + exists emptyStats. rewrite lookup_insert_eq.
      repeat split; cbn; done || lia.
    + rewrite lookup_insert_ne by done. apply Hin. lia.
  - intros k. rewrite !length_app. cbn [length].
    replace (length (players st) + 1 - 1)%nat with (length (players st))
      by lia.
    intros Hk. rewrite lookup_insert_ne by lia. apply Hout. lia.
  - done.
Qed.

Lemma aligned_delete st confirmed index :
  aligned toLowerCase st -> (index < length (players st))%nat ->
  exists st', deletePlayer confirmed index st = Some st' /\
              aligned toLowerCase st'.
Proof.
  intros (Hp & Hin & Hout & Hinn) Hi. unfold deletePlayer.
  destruct (array_get_Forall _ index Hp Hi) as [p ->].
  destruct confirmed; [|by eexists; split; [done|repeat split]].
  eexists. split; [done|].
  pose proof (filterIndex_delete (players st) 0 index) as E.
  change (0 + index)%nat with index in E.
  assert (Hl : S (length (delete index (players st))) = length (players st)).
  { rewrite length_delete by by apply lookup_lt_is_Some_2. lia. }
  repeat split;
    cbn [players gameState battingStats withBattingStats inning];
    rewrite ?E; try done.
  - by apply Forall_delete.
  - intros k Hk. rewrite rekey_lookup.
    destruct (Nat.ltb_spec k index); apply Hin; lia.
  - intros k Hk. rewrite rekey_lookup.
    destruct (Nat.ltb_spec k index); apply Hout; lia.
Qed.

Lemma aligned_move st index direction :
  aligned toLowerCase st -> (index < length (players st))%nat ->
  aligned toLowerCase (movePlayer index direction st).
Proof.
  intros (Hp & Hin & Hout & Hinn) Hi. unfold movePlayer.
  set (newIndex := match direction with
                   | up => Z.of_nat index - 1
                   | down => Z.of_nat index + 1
                   end).
  destruct (Z.ltb_spec newIndex 0); [by repeat split|].
  destruct (Z.geb_spec newIndex (Z.of_nat (length (players st))));
    [by repeat split|].
  cbn [orb]. set (j := Z.to_nat newIndex).
  assert (Hj : (j < length (players st))%nat) by lia.
  assert (Hij : index <> j) by (subst j newIndex; destruct direction; lia).
  destruct (Hin index Hi) as (s1 & Hs1 & Hc1 & Hl1).
  destruct (Hin j Hj) as (s2 & Hs2 & Hc2 & Hl2).
  assert (G1 : objGet (battingStats (gameState st)) index = Some s1)
    by (unfold objGet; by rewrite Hs1).
  assert (G2 : objGet (battingStats (gameState st)) j = Some s2)
    by (unfold objGet; by rewrite Hs2).
  assert (Hlen : length (JsArray.set
                   (JsArray.set (players st) index
                      (JsArray.get (players st) j))
                   j (JsArray.get (players st) index))
                 = length (players st)).
  { rewrite !array_set_length. lia. }
  repeat split;
    cbn [players gameState battingStats withBattingStats inning];
    rewrite ?Hlen, ?G1, ?G2; try done.
  - apply Forall_lookup. intros k x.
    rewrite !array_set_lookup, ?array_set_length.
    repeat case_decide; try lia;
      first [ intros [= <-]; apply array_get_Forall; [exact Hp | lia]
            | intros Hx; exact (proj1 (Forall_lookup _ _) Hp k x Hx)
            | done ].
  - intros k Hk. destruct (decide (k = j)) as [->|Hkj].
    + exists s1. by rewrite lookup_insert_eq.
    + rewrite lookup_insert_ne by done.
      destruct (decide (k = index)) as [->|Hki].
      * exists s2. by rewrite lookup_insert_eq.
      * rewrite lookup_insert_ne by done. by apply Hin.
  - intros k Hk. rewrite !lookup_insert_ne by lia. by apply Hout.
Qed.

Lemma aligned_position st index newPos :
  aligned toLowerCase st -> (index < length (players st))%nat ->
  exists st', changePosition index newPos st = Some st' /\
              aligned toLowerCase st'.
Proof.
  intros (Hp & Hin & Hout & Hinn) Hi. unfold changePosition.
  destruct (array_get_Forall _ index Hp Hi) as [p ->].
  eexists. split; [done|].
  repeat split; cbn [players gameState]; rewrite ?length_insert; try done.
  apply Forall_insert; [done|]. by eexists.
Qed.

Lemma aligned_edit st playerIndex atBatIndex text :
  aligned toLowerCase st ->
  (playerIndex < length (players st))%nat -> (atBatIndex < 4)%nat ->
  aligned toLowerCase
    (withGameState st
       (updateBattingResult toLowerCase playerIndex atBatIndex text
          (gameState st))).
Proof.
  intros (Hp & Hin & Hout & Hinn) Hpi Hai.
  repeat split; cbn [withGameState players gameState]; try done;
    rewrite ?updateBattingResult_battingStats.
  - intros k Hk. destruct (decide (k = playerIndex)) as [->|Hne].
    + rewrite lookup_insert_eq. eexists. split; [done|].
      destruct (Hin playerIndex Hpi) as (s & Hs & Hc & Hl).
      assert (statsAt (gameState st) playerIndex = s) as ->
        by (unfold statsAt, objGet; by rewrite Hs).
      split; [by apply applyResult_consistent|].
      rewrite applyResult_results, array_set_length. lia.
    + rewrite lookup_insert_ne by done. by apply Hin.
  - intros k Hk. rewrite lookup_insert_ne by lia. by apply Hout.
Qed.

Lemma aligned_reset st confirmed :
  aligned toLowerCase st -> aligned toLowerCase (resetGame confirmed st).
Proof.
  intros (Hp & Hin & Hout & Hinn). unfold resetGame.
  destruct confirmed; [|by repeat split].
  repeat split; cbn [players gameState battingStats inning]; try done.
  - intros k Hk. exists emptyStats. rewrite resetGame_lookup.
    destruct (Nat.ltb_spec k (length (players st))); [|lia].
    repeat split; cbn; done || lia.
  - intros k Hk. rewrite resetGame_lookup.
    by destruct (Nat.ltb_spec k (length (players st))); [lia|].
Qed.

Lemma aligned_clear st confirmed :
  aligned toLowerCase st -> aligned toLowerCase (clearAll confirmed st).
Proof.
  intros H. unfold clearAll. destruct confirmed; [|done].
  repeat split; cbn; try done. intros k Hk. lia.
Qed.

Lemma aligned_cursor st :
  aligned toLowerCase st ->
  aligned toLowerCase (withGameState st (retreat (gameState st))) /\
  aligned toLowerCase (withGameState st (advance (gameState st))).
Proof.
  intros (Hp & Hin & Hout & Hinn).
  destruct (gameState st) as [n top cb b] eqn:Hg.
  cbn [inning battingStats] in *. unfold retreat, advance.
  cbn [isTopHalf inning currentBatterIndex battingStats].
  destruct top, (Z.gtb_spec n 1); cbn [negb andb];
    repeat split; cbn [withGameState players gameState battingStats inning];
    try done; lia.
Qed.

Lemma aligned_perform a st :
  aligned toLowerCase st -> offered a st ->
  aligned toLowerCase (perform toLowerCase a st).
Proof.
  intros Hal Hoff. destruct a; cbn [perform offered] in *.
  - destruct Hal as (? & ? & ? & ?). by repeat split.
  - destruct Hal as (? & ? & ? & ?). by repeat split.
  - by apply aligned_add.
  - destruct (aligned_delete st confirmed index Hal Hoff) as (st' & -> & H').
    exact H'.
  - by apply aligned_move.
  - destruct (aligned_position st index newPos Hal Hoff) as (st' & -> & H').
    exact H'.
  - destruct Hoff. by apply aligned_edit.
  - by apply aligned_reset.
  - by apply aligned_clear.
  - by apply aligned_cursor.
  - by apply aligned_cursor.
Qed.

Lemma uiReachable_aligned start st :
  aligned toLowerCase start ->
  uiReachable toLowerCase start st -> aligned toLowerCase st.
Proof.
  intros H0. induction 1 as [|st a _ IH Hoff].
  - exact H0.
  - by apply aligned_perform.
Qed.

End UiFacts.

Section UiTheorems.

Variable toLowerCase : jsstring -> jsstring.

Lemma aligned_entry st k v :
  aligned toLowerCase st -> battingStats (gameState st) !! k = Some v ->
  (k < length (players st))%nat /\
  exists s, v = Some s /\ consistent toLowerCase s /\
            (length (results s) <= 4)%nat.
Proof.
  intros (_ & Hin & Hout & _) Hk.
  destruct (decide (k < length (players st))%nat) as [Hlt|Hge].
  - split; [done|]. destruct (Hin k Hlt) as (s & Hs & ? & ?).
    exists s. split; [congruence | done].
  - rewrite Hout in Hk by lia. done.
Qed.

(** Whatever the controls are used for, starting from the empty page
    or from any state that is in step: every position of the line-up
    holds a player and has a stats entry, the dictionary has no other
    key, the counters of every entry are the counts of its results, with
    hits at most at-bats and at-bats plus walks at most 4, and the inning
    is at least 1. *)
Theorem ui_keeps_ledger_in_step start st :
  aligned toLowerCase start ->
  uiReachable toLowerCase start st ->
  Forall is_Some (players st) /\
  (forall k, (k < length (players st))%nat <->
             is_Some (battingStats (gameState st) !! k)) /\
  (forall k v, battingStats (gameState st) !! k = Some v ->
     exists s, v = Some s /\ consistent toLowerCase s /\
       0 <= hits s <= atBats s /\ 0 <= walks s /\ atBats s + walks s <= 4) /\
  1 <= inning (gameState st).
Proof.
  intros H0 Hr. apply uiReachable_aligned in Hr; [|done].
  pose proof Hr as (Hp & Hin & Hout & Hinn).
  split; [done|]. split; [|split; [|done]].
  - intros k. split.
    + intros Hk. destruct (Hin k Hk) as (s & -> & _). by eexists.
    + intros [v Hv]. by destruct (aligned_entry st k v Hr Hv).
  - intros k v Hv. destruct (aligned_entry st k v Hr Hv)
      as (_ & s & -> & Hc & Hl).
    exists s. split; [done|]. split; [done|].
    destruct (consistent_bounds toLowerCase s Hc) as (? & ? & ?). lia.
Qed.




End UiTheorems.

(** ** Row selection *)

Lemma array_swap_again {A} (a : list (option A)) i j :
  (i < length a)%nat -> (j < length a)%nat -> i <> j ->
  let a' := JsArray.set (JsArray.set a i (JsArray.get a j)) j (JsArray.get a i) in
  JsArray.set (JsArray.set a' i (JsArray.get a' j)) j (JsArray.get a' i) = a.
Proof.
  intros Hi Hj Hij a'. rewrite array_set_commute by done.
  by apply array_swap_back.
Qed.

(** Clicking two different rows of the list and then the same two rows
    again leaves no selection, the list of players as it was, and every
    stats entry that is read as it was; clicking one row twice changes
    nothing. *)
Theorem select_swap_twice st a b :
  (a < length (players st))%nat -> (b < length (players st))%nat ->
  let click index s := handlePlayerSelect index s.1 s.2 in
  (a <> b ->
   let s4 := click b (click a (click b (click a (None, st)))) in
   s4.1 = None /\ players s4.2 = players st /\
   forall k, objGet (battingStats (gameState s4.2)) k
             = objGet (battingStats (gameState st)) k) /\
  click a (click a (None, st)) = (None, st).
Proof.
  intros Ha Hb click. split.
  - intros Hab. subst click. cbn [handlePlayerSelect fst snd].
    destruct (Nat.eqb_spec a b) as [|_]; [done|].
    cbn [handlePlayerSelect fst snd].
    destruct (Nat.eqb_spec a b) as [|_]; [done|].
    cbn [fst snd players gameState battingStats withBattingStats].
    split; [done|]. split.
    + apply (array_swap_again (players st) a b); done.
    + intros k.
      set (m := battingStats (gameState st)).
      destruct (decide (k = b)) as [->|Hkb].
      * rewrite objGet_insert_eq, objGet_insert_ne, objGet_insert_eq by done.
        done.
      * rewrite objGet_insert_ne by done.
        destruct (decide (k = a)) as [->|Hka].
        -- by rewrite objGet_insert_eq, objGet_insert_eq.
        -- by rewrite !objGet_insert_ne by done.
  - subst click. cbn [handlePlayerSelect fst snd].
    by rewrite Nat.eqb_refl.
Qed.

(** The selection outlives the row: select the last row, delete it, and
    click another row. The click swaps with a position that is gone, so
    the clicked position of the list holds [undefined] afterwards (the
    row rendering reads its [pos]) and the aggregator throws. *)
Theorem stale_selection_breaks_page st index player :
  let last := (length (players st) - 1)%nat in
  (index < last)%nat ->
  JsArray.get (players st) last = Some player ->
  (forall k, (length (players st) <= k)%nat ->
     battingStats (gameState st) !! k = None) ->
  exists st1,
    deletePlayer true last st = Some st1 /\
    let after := (handlePlayerSelect index (Some last) st1).2 in
    JsArray.get (players after) index = None /\
    (index < length (players after))%nat /\
    getTeamStats (gameState after) = None.
Proof.
  intros last Hi Hp Hkeys. unfold deletePlayer. rewrite Hp.
  eexists. split; [done|].
  cbv zeta. cbn [handlePlayerSelect snd]. fold last.
  destruct (Nat.eqb_spec last index); [lia|].
  cbn [players gameState battingStats withBattingStats].
  pose proof (filterIndex_delete (players st) 0 last) as E.
  change (0 + last)%nat with last in E. rewrite E.
  assert (Hl : length (delete last (players st)) = last).
  { rewrite length_delete; [subst last; lia|].
    apply lookup_lt_is_Some_2. subst last. lia. }
  assert (Hg : JsArray.get (delete last (players st)) last = None).
  { unfold JsArray.get. by rewrite lookup_ge_None_2 by lia. }
  rewrite Hg. cbn [snd players gameState].
  split; [by rewrite array_get_set_eq|]. split.
  - rewrite !array_set_length. lia.
  - apply foldl_addStats_none_iff_game. exists index.
    cbn [battingStats withBattingStats]. rewrite lookup_insert_eq.
    f_equal. unfold objGet. rewrite rekey_lookup.
    destruct (Nat.ltb_spec last last); [lia|].
    rewrite Hkeys by (subst last; lia). done.
Qed.

(** ** Change notifications and saves *)

(** After a save that went out (there is a non-empty record id), every change
    notification that arrives less than 2000 ms later is dropped, whatever
    it carries: the client keeps the data it saved and shows nothing. *)
Theorem notification_after_save_dropped c id showMessage now updatedAt failed
    later payloadNew :
  dataId c = Some id ->
  truthy id = true ->
  later - now < 2000 ->
  let saved := (saveData showMessage now updatedAt failed c).1 in
  onRemoteChange later payloadNew saved = (saved, []) /\
  clientData saved = clientData c.
Proof.
  intros Hid Hid' Hlate saved. subst saved. unfold saveData.
  rewrite Hid, Hid'. cbn [negb fst]. unfold onRemoteChange. cbn [lastSaveTime].
  by destruct (Z.ltb_spec (later - now) 2000); [|lia].
Qed.


(** ** The classifier and the team sums under an edit *)

Section MoreLedger.

Variable toLowerCase : jsstring -> jsstring.

(** The classifier returns one of fourteen tags, whatever the text, and
    the empty tag exactly for a text that is blank. *)
Theorem classification_closed text :
  In (normalizeResult toLowerCase text) taxonomy /\
  (normalizeResult toLowerCase text = js "" <-> trim text = []).
Proof.
  split; [apply normalizeResult_taxonomy | apply normalizeResult_empty_iff].
Qed.

Lemma total_insert_over f (b : gmap nat (option BattingStats)) k v :
  total f (<[k := v]> b)
  = total f b - entryVal f (b !! k) + from_option f 0 v.
Proof.
  rewrite (total_delete f (<[k := v]> b) k), (total_delete f b k).
  rewrite lookup_insert_eq, delete_insert_eq. cbn. lia.
Qed.

(** An edit moves each team sum by what the slot held and what it holds
    now: the old text's count goes out and the new text's count comes
    in. *)
Theorem edit_moves_team_sums playerIndex atBatIndex text g :
  consistent toLowerCase (statsAt g playerIndex) ->
  let old := JsArray.get (results (statsAt g playerIndex)) atBatIndex in
  let b := battingStats g in
  let b' :=
    battingStats
      (updateBattingResult toLowerCase playerIndex atBatIndex text g) in
  total hits b' = total hits b - b2z (countsAsHit toLowerCase old)
                  + b2z (countsAsHit toLowerCase (Some text)) /\
  total atBats b' = total atBats b - b2z (countsAsAtBat toLowerCase old)
                    + b2z (countsAsAtBat toLowerCase (Some text)) /\
  total walks b' = total walks b - b2z (countsAsWalk toLowerCase old)
                   + b2z (countsAsWalk toLowerCase (Some text)).
Proof.
  intros Hc old b b'. subst b'.
  rewrite updateBattingResult_battingStats. fold b.
  pose proof (applyResult_consistent toLowerCase _ atBatIndex text Hc)
    as (Hh & Ha & Hw).
  rewrite applyResult_results in Hh, Ha, Hw.
  rewrite countIf_set in Hh, Ha, Hw by done. fold old in Hh, Ha, Hw.
  destruct Hc as (Hh0 & Ha0 & Hw0). rewrite <- Hh0 in Hh.
  rewrite <- Ha0 in Ha. rewrite <- Hw0 in Hw.
  assert (He : forall f, f emptyStats = 0 ->
            entryVal f (b !! playerIndex) = f (statsAt g playerIndex)).
  { intros f Hf. unfold statsAt, objGet, entryVal. fold b.
    by destruct (b !! playerIndex) as [[s|]|]. }
  rewrite !total_insert_over, !He by done. cbn [from_option]. lia.
Qed.

End MoreLedger.

(** ** The further properties at concrete inputs *)

Lemma classification_closed_witness :
  In (normalizeResult toLowerCaseASCII (js "右中間")) taxonomy.
Proof. apply (classification_closed toLowerCaseASCII (js "右中間")). Defined.

Lemma hits_never_exceed_at_bats_witness :
  let stats :=
    statsAt (runEdits toLowerCaseASCII sampleEdits initialGameState) 0 in
  0 <= hits stats <= atBats stats /\
  0 <= walks stats /\
  atBats stats + walks stats <= Z.of_nat 4.
Proof.
  apply (hits_never_exceed_at_bats toLowerCaseASCII sampleEdits
           initialGameState 0 4).
  - reflexivity.
  - repeat constructor; simpl; lia.
Defined.

Lemma last_text_wins_witness :
  updateBattingResult toLowerCaseASCII 0 0 (js "四球")
    (updateBattingResult toLowerCaseASCII 0 0 (js "三振") initialGameState)
  = updateBattingResult toLowerCaseASCII 0 0 (js "四球") initialGameState.
Proof.
  apply (last_text_wins toLowerCaseASCII 0 0 (js "三振") (js "四球")
           initialGameState).
  vm_compute. repeat split; reflexivity.
Defined.

Lemma type_then_clear_restores_witness :
  let cleared :=
    updateBattingResult toLowerCaseASCII 0 2 (js "")
      (updateBattingResult toLowerCaseASCII 0 2 (js "右安")
         (gameState sampleState)) in
  hits (statsAt cleared 0) = hits (statsAt (gameState sampleState) 0) /\
  atBats (statsAt cleared 0) = atBats (statsAt (gameState sampleState) 0) /\
  walks (statsAt cleared 0) = walks (statsAt (gameState sampleState) 0).
Proof.
  apply (type_then_clear_restores toLowerCaseASCII 0 2 (js "右安")
           (gameState sampleState)).
  - vm_compute. repeat split; reflexivity.
  - vm_compute. reflexivity.
Defined.

Lemma edits_of_two_slots_commute_witness :
  updateBattingResult toLowerCaseASCII 0 3 (js "四球")
    (updateBattingResult toLowerCaseASCII 0 0 (js "三振") initialGameState)
  = updateBattingResult toLowerCaseASCII 0 0 (js "三振")
      (updateBattingResult toLowerCaseASCII 0 3 (js "四球") initialGameState).
Proof.
  apply (edits_of_two_slots_commute toLowerCaseASCII 0 0 3
           (js "三振") (js "四球") initialGameState).
  - vm_compute. repeat split; reflexivity.
  - lia.
Defined.

Lemma edits_of_two_players_commute_witness :
  updateBattingResult toLowerCaseASCII 1 0 (js "四球")
    (updateBattingResult toLowerCaseASCII 0 0 (js "三振") initialGameState)
  = updateBattingResult toLowerCaseASCII 0 0 (js "三振")
      (updateBattingResult toLowerCaseASCII 1 0 (js "四球") initialGameState).
Proof.
  apply (edits_of_two_players_commute toLowerCaseASCII 0 1 0 0
           (js "三振") (js "四球") initialGameState).
  lia.
Defined.

Lemma edit_moves_team_sums_witness :
  total hits
    (battingStats
       (updateBattingResult toLowerCaseASCII 0 0 (js "右安")
          (gameState sampleState)))
  = total hits sampleStats
    - b2z (countsAsHit toLowerCaseASCII (Some (js "三振")))
    + b2z (countsAsHit toLowerCaseASCII (Some (js "右安"))).
Proof.
  apply (edit_moves_team_sums toLowerCaseASCII 0 0 (js "右安")
           (gameState sampleState)).
  vm_compute. repeat split; reflexivity.
Defined.

Lemma inning_buttons_round_trip_witness :
  retreat (advance thirdInningBottom) = thirdInningBottom /\
  advance (retreat thirdInningBottom) = thirdInningBottom.
Proof.
  destruct (inning_buttons_round_trip thirdInningBottom) as [H1 H2].
  split.
  - apply H1; [simpl; lia | discriminate].
  - apply H2. simpl. lia.
Defined.

Lemma advance_iterated_witness :
  inning (Nat.iter 5 advance initialGameState) = 3 /\
  isTopHalf (Nat.iter 5 advance initialGameState) = false.
Proof.
  pose proof (advance_iterated 5 initialGameState) as (Hi & Ht & _).
  split; [exact Hi | exact Ht].
Defined.

Lemma getTeamStats_throws_iff_witness :
  getTeamStats
    (withBattingStats initialGameState (<[0%nat := None]> sampleStats))
  = None.
Proof.
  apply (getTeamStats_throws_iff
           (withBattingStats initialGameState (<[0%nat := None]> sampleStats))).
  exists 0%nat. reflexivity.
Defined.

Lemma movePlayer_missing_entry_breaks_totals_witness :
  getTeamStats (gameState (movePlayer 1 up sparseState)) = None.
Proof.
  apply (movePlayer_missing_entry_breaks_totals sparseState 1 up).
  - simpl. lia.
  - left. reflexivity.
Defined.

Lemma deletePlayer_totals_witness :
  exists st',
    deletePlayer true 1 sampleState = Some st' /\
    total walks (battingStats (gameState st')) = total walks sampleStats - 1.
Proof.
  destruct (deletePlayer_totals sampleState 1
              {| name := js "鈴木"; pos := js "捕"; face := js "😊" |})
    as (st' & E & _ & _ & _ & Hw); [vm_compute; reflexivity|].
  exists st'. split; [exact E | exact Hw].
Defined.

Lemma movePlayer_keeps_team_stats_witness :
  getTeamStats (gameState (movePlayer 1 up sampleState))
  = getTeamStats (gameState sampleState).
Proof.
  apply (movePlayer_keeps_team_stats sampleState 1 up).
  - eexists. vm_compute. reflexivity.
  - intros _. eexists. vm_compute. reflexivity.
Defined.

Lemma addPlayer_appends_witness :
  exists p,
    JsArray.get (players (addPlayer sampleStateNamed).1) 3 = Some p /\
    name p = js "田中" /\ pos p = js "左" /\
    statsAt (gameState (addPlayer sampleStateNamed).1) 3 = emptyStats.
Proof.
  destruct (addPlayer_appends sampleStateNamed)
    as (p & _ & Hn & _ & _ & Hpos & Hg & Hs); [vm_compute; discriminate|].
  exists p. split; [exact Hg|]. split; [|split; [exact Hpos | exact Hs]].
  rewrite Hn. vm_compute. reflexivity.
Defined.

Lemma sampleStats_keys k : (3 <= k)%nat -> sampleStats !! k = None.
Proof.
  intros Hk. unfold sampleStats.
  rewrite !lookup_insert_ne by lia. apply lookup_empty.
Qed.

Lemma add_then_delete_witness :
  deletePlayer true 3 (addPlayer sampleStateNamed).1
  = Some {| players := players sampleState; gameState := gameState sampleState;
            playerName := []; playerPos := js "左" |}.
Proof.
  apply (add_then_delete sampleStateNamed).
  - vm_compute. discriminate.
  - apply sampleStats_keys.
Defined.

Lemma move_up_then_down_witness :
  movePlayer 0 down (movePlayer 1 up sampleState) = sampleState.
Proof.
  apply (move_up_then_down sampleState 1).
  - simpl. lia.
  - eexists. vm_compute. reflexivity.
  - eexists. vm_compute. reflexivity.
Defined.

Lemma resetGame_clears_witness :
  battingStats (gameState (resetGame true sampleState)) !! 2%nat
  = Some (Some emptyStats).
Proof. apply (resetGame_clears sampleState). simpl. lia. Defined.

Lemma afterThreeActions_reachable :
  uiReachable toLowerCaseASCII emptyApp afterThreeActions.
Proof.
  unfold afterThreeActions.
  apply ui_step; [apply ui_step; [apply ui_step; [apply ui_initial|]|]|];
    simpl; try exact I.
  vm_compute. split; lia.
Qed.

Lemma ui_keeps_ledger_in_step_witness :
  Forall is_Some (players afterThreeActions) /\
  (forall k, (k < length (players afterThreeActions))%nat <->
             is_Some (battingStats (gameState afterThreeActions) !! k)) /\
  (forall k v, battingStats (gameState afterThreeActions) !! k = Some v ->
     exists s, v = Some s /\ consistent toLowerCaseASCII s /\
       0 <= hits s <= atBats s /\ 0 <= walks s /\ atBats s + walks s <= 4) /\
  1 <= inning (gameState afterThreeActions).
Proof.
  apply (ui_keeps_ledger_in_step toLowerCaseASCII emptyApp afterThreeActions).
  - repeat split; simpl; intros; first [lia | done].
  - apply afterThreeActions_reachable.
Defined.



Lemma select_swap_twice_witness :
  handlePlayerSelect 1 (handlePlayerSelect 1 None sampleState).1
    (handlePlayerSelect 1 None sampleState).2
  = (None, sampleState).
Proof. apply (select_swap_twice sampleState 1 0); simpl; lia. Defined.

Lemma stale_selection_breaks_page_witness :
  exists st1,
    deletePlayer true 2 sampleState = Some st1 /\
    JsArray.get (players (handlePlayerSelect 0 (Some 2%nat) st1).2) 0 = None /\
    getTeamStats (gameState (handlePlayerSelect 0 (Some 2%nat) st1).2) = None.
Proof.
  destruct (stale_selection_breaks_page sampleState 0
              {| name := js "佐藤"; pos := js "一"; face := js "😊" |})
    as (st1 & E & Hg & _ & Ht).
  - simpl. lia.
  - vm_compute. reflexivity.
  - apply sampleStats_keys.
  - exists st1. split; [exact E|]. split; [exact Hg | exact Ht].
Defined.

Lemma notification_after_save_dropped_witness :
  let saved :=
    (saveData false 1700000000000 (js "2023-11-14T22:13:20.000Z") false
       sampleClient).1 in
  onRemoteChange 1700000001999 (Some (Some sampleData)) saved = (saved, []).
Proof.
  apply (notification_after_save_dropped sampleClient (js "row-1") false
           1700000000000 (js "2023-11-14T22:13:20.000Z") false
           1700000001999 (Some (Some sampleData))).
  - reflexivity.
  - reflexivity.
  - lia.
Defined.


Lemma twoPlayerStore_reachable :
  Shared.reachable toLowerCaseASCII twoPlayerStore.
Proof. unfold twoPlayerStore. repeat constructor. Qed.

Lemma update_frame_shared_witness :
  Shared.view (Shared.update toLowerCaseASCII 0 0 (js "左安") twoPlayerStore)
    !! 1%nat
  = Shared.view twoPlayerStore !! 1%nat.
Proof.
  apply (update_frame_shared toLowerCaseASCII 0 0 (js "左安") twoPlayerStore 1).
  - apply twoPlayerStore_reachable.
  - lia.
Defined.
